(** * Nexus master/slave excerpt: a shallow embedding and its properties

    Sources embedded here:
    - [third_party/libprocess/pid.hpp]   ([UPID] and its comparison operators)
    - [src/slave.hpp]                    ([Task], [Framework], [Executor],
                                          [Slave::SlaveLeaderListener])
    - [src/master_main.cpp]              ([main] of the master binary)

    Part I holds the definitions, Part II the theorems. *)

From Stdlib Require Import ZArith NArith String Ascii List Bool Lia.
From stdpp Require Import base option list gmap strings.

Local Open Scope Z_scope.

(* ===================================================================== *)
(** * Part I: definitions                                                 *)
(* ===================================================================== *)

(** ** pid.hpp: [struct UPID] *)

Module UPID.

(** [std::string id; uint32_t ip; uint16_t port;]  The two integer fields
    are kept as [Z]; only [==] and [<] are applied to them, so their width
    plays no part below. *)
Record t : Type := mk { id : string; ip : Z; port : Z }.

(** The operators compare [this] with [&that] before they look at any
    field, so an operand is an object (an address) and not only a value.
    A [store] gives the value held at each address. *)
Definition addr : Type := positive.
Definition store : Type := addr -> t.

(** [std::string::operator<]: lexicographic on the characters, a proper
    prefix being smaller. *)
Definition string_lt (s1 s2 : string) : bool := String.ltb s1 s2.

(** [bool operator < (const UPID& that) const] *)
Definition lt (m : store) (this that : addr) : bool :=
  if negb (Pos.eqb this that) then
    let a := m this in
    let b := m that in
    if (ip a =? ip b) && (port a =? port b) then
      string_lt (id a) (id b)
    else if (ip a =? ip b) && negb (port a =? port b) then
      port a <? port b
    else
      ip a <? ip b
  else false.

(** [bool operator == (const UPID& that) const] *)
Definition eq (m : store) (this that : addr) : bool :=
  if negb (Pos.eqb this that) then
    let a := m this in
    let b := m that in
    String.eqb (id a) (id b) && (ip a =? ip b) && (port a =? port b)
  else true.

(** [bool operator != (const UPID& that) const] *)
Definition ne (m : store) (this that : addr) : bool :=
  negb (eq m this that).

(** [bool operator ! () const] *)
Definition is_null (m : store) (this : addr) : bool :=
  let a := m this in
  String.eqb (id a) "" && (ip a =? 0) && (port a =? 0).

(** The value-level reading of [<]: lexicographic on (ip, port, id). *)
Definition lex_lt (a b : t) : Prop :=
  ip a < ip b \/
  (ip a = ip b /\ port a < port b) \/
  (ip a = ip b /\ port a = port b /\ string_lt (id a) (id b) = true).

(** Exactly one of three propositions holds. *)
Definition exactly_one (P Q R : Prop) : Prop :=
  (P /\ ~ Q /\ ~ R) \/ (~ P /\ Q /\ ~ R) \/ (~ P /\ ~ Q /\ R).

(** Three objects used to exercise the operators: two on the same host and
    port with different names, one on another port. *)
Definition sample_store : store := fun p =>
  match p with
  | 1%positive => mk "master" 167772161 5050
  | 2%positive => mk "slave" 167772161 5050
  | _ => mk "master" 167772161 5051
  end.

(** [UPID() : ip(0), port(0) {}]; the string member starts empty. *)
Definition default : t := mk "" 0 0.

(** A store with two default-constructed objects (addresses 1 and 2), the
    rest as in [sample_store]. *)
Definition null_store : store := fun p =>
  match p with
  | 1%positive => default
  | 2%positive => default
  | _ => sample_store p
  end.

End UPID.

(** ** slave.hpp: tasks and frameworks as the slave records them *)

Module Slave.

(** glog severities; [LOG(FATAL)] writes its line and then aborts the
    process. *)
Inductive severity : Type := INFO | WARNING | ERROR | FATAL.

(** One operand of a [<<] chain that builds a log line. *)
Inductive log_item (TaskID FrameworkID : Type) : Type :=
| Str (s : string)
| OfTaskID (tid : TaskID)
| OfFrameworkID (fid : FrameworkID)
| OfPID (pid : UPID.t).
Arguments Str {TaskID FrameworkID} s.
Arguments OfTaskID {TaskID FrameworkID} tid.
Arguments OfFrameworkID {TaskID FrameworkID} fid.
Arguments OfPID {TaskID FrameworkID} pid.

(** What a call that may run into [LOG(FATAL)] produces: its value, or the
    end of the process together with the line that was logged. *)
Inductive result (L A : Type) : Type :=
| Ok (a : A)
| Aborted (diagnostic : list L).
Arguments Ok {L A} a.
Arguments Aborted {L A} diagnostic.

#[global] Instance result_ret {L : Type} : MRet (result L) :=
  fun A a => Ok a.

#[global] Instance result_bind {L : Type} : MBind (result L) :=
  fun A B k r =>
    match r with
    | Ok a => k a
    | Aborted d => Aborted d
    end.

(** Modelled from the spec: [TaskState] is declared in messages.hpp, which
    is not part of the excerpt; the spec lists the states STARTING, RUNNING,
    FINISHED, FAILED, KILLED and LOST.  The code embedded here only ever
    stores [TASK_STARTING]. *)
Inductive TaskState : Type :=
| TASK_STARTING | TASK_RUNNING | TASK_FINISHED
| TASK_FAILED | TASK_KILLED | TASK_LOST.

(** The operations of [Resources] (resources.hpp, not part of the excerpt)
    that slave.hpp uses: the default constructor, [+=] and [-=]. *)
Class ResourcesOps (Resources : Type) : Type := {
  res_default : Resources;
  res_add : Resources -> Resources -> Resources;
  res_sub : Resources -> Resources -> Resources
}.

(** What the accounting in [Framework] asks of them: a default-constructed
    value holds nothing, [+] is commutative and associative, and [-] undoes
    [+]. *)
Class ResourcesLaws (Resources : Type) `{ResourcesOps Resources} : Prop := {
  res_default_neutral : forall r, res_add res_default r = r;
  res_add_comm : forall r1 r2, res_add r1 r2 = res_add r2 r1;
  res_add_assoc : forall r1 r2 r3,
      res_add r1 (res_add r2 r3) = res_add (res_add r1 r2) r3;
  res_add_sub : forall r1 r2, res_sub (res_add r1 r2) r2 = r1
}.

Section Framework.

(** [TaskID], [FrameworkID], [ExecutorInfo] and [Params] come from headers
    outside the excerpt; the task map needs the keys to be hashable and
    comparable, nothing else is asked of them. *)
Context {TaskID FrameworkID ExecutorInfo Params Resources : Type}.
Context `{Countable TaskID} `{ResourcesOps Resources}.

(** [struct TaskDescription]: a task that is yet to be launched. *)
Record TaskDescription : Type := mkTaskDescription {
  td_tid : TaskID;
  td_name : string;
  td_args : string;
  td_params : Params
}.

(** [struct Task]: a running or pending task. *)
Record Task : Type := mkTask {
  task_id : TaskID;
  task_frameworkId : FrameworkID;
  task_resources : Resources;
  task_state : TaskState;
  task_name : string;
  task_message : string
}.

(** [struct Framework].  The containers own their elements ([~Framework]
    deletes them), so they are held by value. *)
Record Framework : Type := mkFramework {
  fw_id : FrameworkID;
  fw_name : string;
  fw_user : string;
  fw_executorInfo : ExecutorInfo;
  fw_queuedTasks : list TaskDescription;
  fw_tasks : gmap TaskID Task;
  fw_resources : Resources;
  fw_executorStatus : string
}.

(** [Framework(_id, _name, _user, _executorInfo)] *)
Definition newFramework (id : FrameworkID) (name user : string)
    (executorInfo : ExecutorInfo) : Framework :=
  {| fw_id := id; fw_name := name; fw_user := user;
     fw_executorInfo := executorInfo;
     fw_queuedTasks := [];
     fw_tasks := ∅;
     fw_resources := res_default;
     fw_executorStatus := "" |}.

(** [Task * lookupTask(TaskID tid)]; [None] is the null pointer. *)
Definition lookupTask (fw : Framework) (tid : TaskID) : option Task :=
  fw_tasks fw !! tid.

(** [Task * addTask(TaskID tid, const std::string& name, Resources res)] *)
Definition addTask (fw : Framework) (tid : TaskID) (name : string)
    (res : Resources) :
  result (log_item TaskID FrameworkID) (Task * Framework) :=
  match fw_tasks fw !! tid with
  | Some _ =>
    Aborted [Str "Task ID "; OfTaskID tid;
             Str "already exists in framework "; OfFrameworkID (fw_id fw)]
  | None =>
    let task :=
      {| task_id := tid;
         task_frameworkId := fw_id fw;
         task_resources := res;
         task_state := TASK_STARTING;
         task_name := name;
         task_message := "" |} in
    Ok (task,
        {| fw_id := fw_id fw; fw_name := fw_name fw; fw_user := fw_user fw;
           fw_executorInfo := fw_executorInfo fw;
           fw_queuedTasks := fw_queuedTasks fw;
           fw_tasks := <[tid := task]> (fw_tasks fw);
           fw_resources := res_add (fw_resources fw) res;
           fw_executorStatus := fw_executorStatus fw |})
  end.

(** The loop over [queuedTasks] in [removeTask]: erase the first entry whose
    [tid] matches, then [break]. *)
Fixpoint eraseQueued (tid : TaskID) (q : list TaskDescription) :
  list TaskDescription :=
  match q with
  | [] => []
  | d :: q' =>
    if decide (td_tid d = tid) then q' else d :: eraseQueued tid q'
  end.

(** [void removeTask(TaskID tid)] *)
Definition removeTask (fw : Framework) (tid : TaskID) : Framework :=
  let queued := eraseQueued tid (fw_queuedTasks fw) in
  match fw_tasks fw !! tid with
  | Some task =>
    {| fw_id := fw_id fw; fw_name := fw_name fw; fw_user := fw_user fw;
       fw_executorInfo := fw_executorInfo fw;
       fw_queuedTasks := queued;
       fw_tasks := delete tid (fw_tasks fw);
       fw_resources := res_sub (fw_resources fw) (task_resources task);
       fw_executorStatus := fw_executorStatus fw |}
  | None =>
    {| fw_id := fw_id fw; fw_name := fw_name fw; fw_user := fw_user fw;
       fw_executorInfo := fw_executorInfo fw;
       fw_queuedTasks := queued;
       fw_tasks := fw_tasks fw;
       fw_resources := fw_resources fw;
       fw_executorStatus := fw_executorStatus fw |}
  end.

(** A call made on a framework by the rest of the slave. *)
Inductive call : Type :=
| AddTask (tid : TaskID) (name : string) (res : Resources)
| RemoveTask (tid : TaskID).

Definition perform (fw : Framework) (c : call) :
  result (log_item TaskID FrameworkID) Framework :=
  match c with
  | AddTask tid name res =>
    r ← addTask fw tid name res; mret (snd r)
  | RemoveTask tid => mret (removeTask fw tid)
  end.

(** A sequence of calls, stopped by the first one that aborts. *)
Fixpoint performAll (cs : list call) (fw : Framework) :
  result (log_item TaskID FrameworkID) Framework :=
  match cs with
  | [] => mret fw
  | c :: cs' => fw' ← perform fw c; performAll cs' fw'
  end.

(** Componentwise sum of the resources of the tasks in a task map. *)
Definition sumResources (tasks : gmap TaskID Task) : Resources :=
  map_fold (fun _ task acc => res_add acc (task_resources task))
           res_default tasks.

(** The queue after [removeTask]: nothing, or exactly the first entry with
    the given id, has gone. *)
Definition firstErased (tid : TaskID) (q q' : list TaskDescription) : Prop :=
  (q' = q /\ forall d, d ∈ q -> td_tid d <> tid) \/
  (exists pre d post,
      q = pre ++ d :: post /\ td_tid d = tid /\
      (forall e, e ∈ pre -> td_tid e <> tid) /\
      q' = pre ++ post).

(** The accounting invariant of a framework. *)
Definition accounted (fw : Framework) : Prop :=
  fw_resources fw = sumResources (fw_tasks fw).

(** What a task in the task map looks like when only [addTask] has put
    tasks there: it is filed under its own id, belongs to the framework and
    has not left its first state. *)
Definition wellFiled (fw : Framework) : Prop :=
  forall tid task,
    fw_tasks fw !! tid = Some task ->
    task_id task = tid /\
    task_frameworkId task = fw_id fw /\
    task_state task = TASK_STARTING /\
    task_message task = "".

(** The ids in the task map after a sequence of calls, followed on the set
    of ids alone: [None] when some [AddTask] names an id that is in the set
    at that point. *)
Fixpoint idsAfter (ids : gset TaskID) (cs : list call) :
  option (gset TaskID) :=
  match cs with
  | [] => Some ids
  | AddTask tid _ _ :: cs' =>
    if decide (tid ∈ ids) then None else idsAfter ({[tid]} ∪ ids) cs'
  | RemoveTask tid :: cs' => idsAfter (ids ∖ {[tid]}) cs'
  end.

End Framework.

(** *** The slave process and its leader listener *)

(** Of the messages of messages.hpp the excerpt builds one. *)
Inductive message : Type :=
| LE2S_NEWLEADER (pidStr : string).

Section SlaveProcess.

Context {TaskID FrameworkID SlaveID ExecutorInfo Params Resources : Type}.
Context `{Countable TaskID} `{Countable FrameworkID}.

(** [struct Executor]: a connection to an executor. *)
Record Executor : Type := mkExecutor {
  exec_frameworkId : FrameworkID;
  exec_pid : UPID.t
}.

(** The data members of [class Slave]; the two pointers to collaborators
    ([leaderDetector], [isolationModule]) are left out. *)
Record SlaveData : Type := mkSlaveData {
  slave_isFT : bool;
  slave_zkserver : string;
  slave_master : UPID.t;
  slave_id : SlaveID;
  slave_resources : Resources;
  slave_local : bool;
  slave_frameworks :
    gmap FrameworkID
         (@Framework TaskID FrameworkID ExecutorInfo Params Resources _ _);
  slave_executors : gmap FrameworkID Executor;
  slave_isolationType : string
}.

Definition log_line : Type :=
  (severity * list (log_item TaskID FrameworkID))%type.

(** What the listener can reach: the slave it was given ([parent]), the
    messages handed to [send] so far, and the log. *)
Record World : Type := mkWorld {
  parent : SlaveData;
  sent : list (UPID.t * message);
  logged : list log_line
}.

Definition set_zkserver (s : SlaveData) (z : string) : SlaveData :=
  {| slave_isFT := slave_isFT s;
     slave_zkserver := z;
     slave_master := slave_master s;
     slave_id := slave_id s;
     slave_resources := slave_resources s;
     slave_local := slave_local s;
     slave_frameworks := slave_frameworks s;
     slave_executors := slave_executors s;
     slave_isolationType := slave_isolationType s |}.

(** [SlaveLeaderListener::newLeaderElected(string zkId, string pidStr)];
    [parentPID] is the listener's own member.  The source notes that the
    callback is not thread safe; calls are taken one at a time here. *)
Definition newLeaderElected (parentPID : UPID.t) (w : World)
    (zkId pidStr : string) : World :=
  if negb (String.eqb zkId "") then
    {| parent := set_zkserver (parent w) pidStr;
       sent := sent w ++ [(parentPID, LE2S_NEWLEADER pidStr)];
       logged :=
         logged w ++
         [(INFO, [Str "Leader listener detected leader at "; Str pidStr;
                  Str " with ephemeral id:"; Str zkId]);
          (INFO, [Str "Sending message to parent "; OfPID parentPID;
                  Str " about new leader"])] |}
  else w.

(** A sequence of election events, each an ephemeral id with the locator of
    the leader, delivered in order. *)
Definition deliver (parentPID : UPID.t) (events : list (string * string))
    (w : World) : World :=
  fold_left (fun w e => newLeaderElected parentPID w (fst e) (snd e)) events w.

(** The events of a sequence whose ephemeral id is not empty. *)
Definition named (events : list (string * string)) :
  list (string * string) :=
  List.filter (fun e => negb (String.eqb (fst e) "")) events.

End SlaveProcess.

End Slave.

(** Modelled from the spec: [Resources] (resources.hpp is not part of the
    excerpt) is a fixed-schema vector of named nonnegative scalar quantities,
    the kinds being cpu and mem; [+] and [-] work kind by kind, and [-] is
    only meant for amounts that do not exceed what is there. *)
Module CpuMem.

Record t : Type := mk { cpus : N; mem : N }.

Definition zero : t := mk 0 0.
Definition add (r1 r2 : t) : t :=
  mk (cpus r1 + cpus r2)%N (mem r1 + mem r2)%N.
Definition sub (r1 r2 : t) : t :=
  mk (cpus r1 - cpus r2)%N (mem r1 - mem r2)%N.

#[global] Instance ops : Slave.ResourcesOps t :=
  {| Slave.res_default := zero; Slave.res_add := add; Slave.res_sub := sub |}.

End CpuMem.

(** A framework and a few calls on it, with strings for the identifiers
    and [CpuMem.t] for the resources, used to run the definitions above. *)
Module Sample.
Import Slave.

Definition Fw : Type := @Framework string string string unit CpuMem.t _ _.

Definition map_res : CpuMem.t := CpuMem.mk 2 512.
Definition reduce_res : CpuMem.t := CpuMem.mk 1 256.

Definition framework0 : Fw :=
  newFramework "201010-0" "wordcount" "alice" "hdfs://nn/wordcount-executor".

Definition task1 : @Task string string CpuMem.t :=
  mkTask "T1" "201010-0" map_res TASK_STARTING "map" "".
Definition task2 : @Task string string CpuMem.t :=
  mkTask "T2" "201010-0" reduce_res TASK_STARTING "reduce" "".

Definition queued1 : @TaskDescription string unit :=
  mkTaskDescription "T1" "map" "part-0" tt.
Definition queued2 : @TaskDescription string unit :=
  mkTaskDescription "T2" "reduce" "part-1" tt.

(** [framework0] once T1 has been added. *)
Definition framework1 : Fw :=
  mkFramework "201010-0" "wordcount" "alice" "hdfs://nn/wordcount-executor"
              [] (<["T1" := task1]> ∅) map_res "".

(** T1 and T2 running, and T2, T1, T1 waiting in the queue. *)
Definition framework2 : Fw :=
  mkFramework "201010-0" "wordcount" "alice" "hdfs://nn/wordcount-executor"
              [queued2; queued1; queued1]
              (<["T2" := task2]> (<["T1" := task1]> ∅))
              (CpuMem.mk 3 768) "".

(** Only T2 left. *)
Definition framework3 : Fw :=
  mkFramework "201010-0" "wordcount" "alice" "hdfs://nn/wordcount-executor"
              [] (<["T2" := task2]> ∅) reduce_res "".

Definition calls : list (@call string CpuMem.t) :=
  [AddTask "T1" "map" map_res; AddTask "T2" "reduce" reduce_res;
   RemoveTask "T1"].

Definition slavePID : UPID.t := UPID.mk "slave" 167772162 5051.

Definition slave0 :
  @SlaveData string string string string unit CpuMem.t _ _ _ _ :=
  mkSlaveData true "zoo1:2181" (UPID.mk "master" 167772161 5050)
              "201010-S0" (CpuMem.mk 4 1024) false ∅ ∅ "process".

Definition world0 : @World string string string string unit CpuMem.t _ _ _ _ :=
  mkWorld slave0 [] [].

(** Three election events in a row: a first leader, a second event with the
    same ephemeral id, and a third with a smaller one. *)
Definition world1 := newLeaderElected slavePID world0
                       "0000000007" "master@10.0.0.1:5050".
Definition world2 := newLeaderElected slavePID world1
                       "0000000007" "master@10.0.0.2:5050".
Definition world3 := newLeaderElected slavePID world2
                       "0000000003" "master@10.0.0.3:5050".

End Sample.

(** ** master_main.cpp *)

(** [getopt_long] of the C library, as getopt_long(3) describes it for an
    option string that does not start with [+], [-] or [:].  Whether the
    environment variable POSIXLY_CORRECT is set is an input: if it is not,
    operands may stand between options and are skipped; if it is, the first
    operand ends the scan.  A double dash ends it in both cases.  A long
    option may carry its argument after an equals sign; short options may
    be bundled.  The array of long options has to end with an entry of
    zeros; the walk through it does not stop otherwise.  The messages that
    [getopt_long] itself prints are not recorded. *)
Module Getopt.

Inductive argument : Type := no_argument | required_argument.

(** [struct option], without the [flag] member, which [main] always sets
    to 0. *)
Record long_option : Type := mkOption {
  name : string;
  has_arg : argument;
  val : ascii
}.

(** The array of long options as [getopt_long] finds it in memory: its
    entries, and whether the entry of zeros closes it. *)
Record table : Type := mkTable {
  entries : list long_option;
  terminated : bool
}.

(** Where the scan stands: the elements of [argv] from [optind] on, and what
    is left of a bundle of short options that is being read. *)
Record state : Type := mkState {
  pending : list string;
  nextchar : string
}.

(** The value of a call: -1, or a character; [Overrun] stands for a call
    whose walk through the long options has left the array, after which C
    defines no behaviour. *)
Inductive value : Type := EOF | Char (c : ascii) | Overrun.

(** A call yields its value, [optarg] (empty where C has a null pointer) and
    the next state. *)
Definition answer : Type := (value * string * state)%type.

(** The suffix of [s] that starts at the first [c], as [strchr]. *)
Fixpoint strchr (s : string) (c : ascii) : option string :=
  match s with
  | EmptyString => None
  | String d s' => if Ascii.eqb d c then Some s else strchr s' c
  end.

(** An element that is not an option: it does not start with a dash, or it
    is the dash alone. *)
Definition nonoption (arg : string) : bool :=
  match arg with
  | String c (String _ _) => negb (Ascii.eqb c "-")
  | _ => true
  end.

Fixpoint skip_nonoptions (args : list string) : list string :=
  match args with
  | [] => []
  | arg :: rest => if nonoption arg then skip_nonoptions rest else args
  end.

(** [temp[n] == ':'] *)
Definition colon_at (n : nat) (temp : string) : bool :=
  match String.get n temp with
  | Some c => Ascii.eqb c ":"
  | None => false
  end.

(** One short option [c], followed in its element by [cs]. *)
Definition short_option (optstring : string) (c : ascii) (cs : string)
    (rest : list string) : answer :=
  match strchr optstring c with
  | None => (Char "?", "", mkState rest cs)
  | Some temp =>
    if Ascii.eqb c ":" || Ascii.eqb c ";" then
      (Char "?", "", mkState rest cs)
    else if colon_at 1 temp then
      if colon_at 2 temp then
        (* optional argument: only what follows in the same element *)
        (Char c, cs, mkState rest "")
      else
        (* required argument *)
        match cs, rest with
        | String _ _, _ => (Char c, cs, mkState rest "")
        | EmptyString, arg :: rest' => (Char c, arg, mkState rest' "")
        | EmptyString, [] => (Char "?", "", mkState [] "")
        end
    else (Char c, "", mkState rest cs)
  end.

(** The text of a long option cut at its first equals sign. *)
Fixpoint split_equals (text : string) : string * option string :=
  match text with
  | EmptyString => (EmptyString, None)
  | String c text' =>
    if Ascii.eqb c "=" then (EmptyString, Some text')
    else let (n, v) := split_equals text' in (String c n, v)
  end.

Definition argument_eqb (a b : argument) : bool :=
  match a, b with
  | no_argument, no_argument => true
  | required_argument, required_argument => true
  | _, _ => false
  end.

(** Two entries of the table that a shortened name may stand for without
    being ambiguous. *)
Definition same_option (p q : long_option) : bool :=
  argument_eqb (has_arg p) (has_arg q) && Ascii.eqb (val p) (val q).

(** What the walk through the table comes to. *)
Inductive lookup : Type :=
| Found (p : long_option)
| NoMatch
| PastEnd.

(** The walk stops at an entry that spells the name out.  If there is
    none it goes on to the closing entry, and then the only entry the name
    is a prefix of is taken; in an array without closing entry it goes on
    past the last entry. *)
Definition find_long (longopts : table) (nm : string) : lookup :=
  match List.find (fun p => String.eqb (name p) nm) (entries longopts) with
  | Some p => Found p
  | None =>
    if terminated longopts then
      match List.filter (fun p => String.prefix nm (name p))
                        (entries longopts) with
      | [] => NoMatch
      | p :: others =>
        if forallb (same_option p) others then Found p else NoMatch
      end
    else PastEnd
  end.

(** A long option; [text] is the element without its two dashes. *)
Definition long_option_at (longopts : table) (text : string)
    (rest : list string) : answer :=
  let (nm, given) := split_equals text in
  match find_long longopts nm with
  | PastEnd => (Overrun, "", mkState rest "")
  | NoMatch => (Char "?", "", mkState rest "")
  | Found p =>
    match given, has_arg p, rest with
    | Some v, required_argument, _ => (Char (val p), v, mkState rest "")
    | Some _, no_argument, _ => (Char "?", "", mkState rest "")
    | None, required_argument, arg :: rest' =>
      (Char (val p), arg, mkState rest' "")
    | None, required_argument, [] => (Char "?", "", mkState [] "")
    | None, no_argument, _ => (Char (val p), "", mkState rest "")
    end
  end.

(** One call of [getopt_long]. *)
Definition getopt_long (posixly_correct : bool) (optstring : string)
    (longopts : table) (st : state) : answer :=
  match nextchar st with
  | String c cs => short_option optstring c cs (pending st)
  | EmptyString =>
    let args :=
      if posixly_correct then pending st
      else skip_nonoptions (pending st) in
    match args with
    | [] => (EOF, "", mkState [] "")
    | arg :: rest =>
      if String.eqb arg "--" then (EOF, "", mkState rest "")
      else if nonoption arg then (EOF, "", mkState args "")
      else
        match arg with
        | String _ (String c cs) =>
          if Ascii.eqb c "-" then long_option_at longopts cs rest
          else short_option optstring c cs rest
        | _ => (EOF, "", mkState rest "")
        end
    end
  end.

(** The first call starts behind [argv[0]]. *)
Definition start (argv : list string) : state := mkState (tl argv) "".

(** What is left to read; every call that returns an option makes it
    smaller. *)
Definition size (st : state) : nat :=
  (String.length (nextchar st) +
   list_sum (List.map (fun arg => S (String.length arg)) (pending st)))%nat.

(** What a series of calls comes to, call by call: the options returned,
    up to the -1, or up to the call that leaves the array. *)
Inductive event : Type :=
| Returned (c : ascii) (optarg : string)
| Overran.

Fixpoint trace (posixly_correct : bool) (optstring : string)
    (longopts : table) (fuel : nat) (st : state) : list event :=
  match fuel with
  | O => []
  | S fuel' =>
    match getopt_long posixly_correct optstring longopts st with
    | (EOF, _, _) => []
    | (Overrun, _, _) => [Overran]
    | (Char c, optarg, st') =>
      Returned c optarg ::
      trace posixly_correct optstring longopts fuel' st'
    end
  end.

(** The calls from a state on, with as many as it can take. *)
Definition run (posixly_correct : bool) (optstring : string)
    (longopts : table) (st : state) : list event :=
  trace posixly_correct optstring longopts (S (size st)) st.

End Getopt.

Module MasterMain.
Import Getopt.

(** [option options[]]: four entries, and no entry of zeros behind them. *)
Definition options : table :=
  mkTable [mkOption "allocator" required_argument "a";
           mkOption "port" required_argument "p";
           mkOption "fault-tolerant" required_argument "f";
           mkOption "quiet" no_argument "q"]
          false.

Definition optstring : string := "a:p:f:q".

(** The variables of [main] that the option loop assigns, with the one
    environment variable it sets. *)
Record vars : Type := mkVars {
  isFT : bool;
  zkserver : string;
  quiet : bool;
  allocator : string;
  LIBPROCESS_PORT : option string
}.

Definition initial : vars := mkVars false "" false "simple" None.

(** The body of the [switch]: the variables after it, or the status handed
    to [exit]. *)
Definition dispatch (opt : ascii) (optarg : string) (v : vars) : vars + Z :=
  if Ascii.eqb opt "a" then
    inl (mkVars (isFT v) (zkserver v) (quiet v) optarg (LIBPROCESS_PORT v))
  else if Ascii.eqb opt "p" then
    inl (mkVars (isFT v) (zkserver v) (quiet v) (allocator v) (Some optarg))
  else if Ascii.eqb opt "f" then
    inl (mkVars true optarg (quiet v) (allocator v) (LIBPROCESS_PORT v))
  else if Ascii.eqb opt "q" then
    inl (mkVars (isFT v) (zkserver v) true (allocator v) (LIBPROCESS_PORT v))
  else if Ascii.eqb opt "?" then
    inr 1
  else
    inl v.

(** How the [while] loop ends: with the variables set, in [exit], or in a
    call of [getopt_long] that has left the array. *)
Inductive parsed : Type :=
| Parsed (v : vars)
| Quit (status : Z)
| Astray.

(** The [while] loop; [None] only if [fuel] calls were not enough. *)
Fixpoint loop (posixly_correct : bool) (fuel : nat) (st : state) (v : vars) :
  option parsed :=
  match fuel with
  | O => None
  | S fuel' =>
    match getopt_long posixly_correct optstring options st with
    | (EOF, _, _) => Some (Parsed v)
    | (Overrun, _, _) => Some Astray
    | (Char opt, optarg, st') =>
      match dispatch opt optarg v with
      | inl v' => loop posixly_correct fuel' st' v'
      | inr status => Some (Quit status)
      end
    end
  end.

(** The loop body applied to what a series of calls comes to. *)
Fixpoint dispatchAll (t : list event) (v : vars) : parsed :=
  match t with
  | [] => Parsed v
  | Overran :: _ => Astray
  | Returned opt optarg :: t' =>
    match dispatch opt optarg v with
    | inl v' => dispatchAll t' v'
    | inr status => Quit status
    end
  end.

(** What [main] has done when it reaches [Process::wait]: the threshold
    given to [SetStderrLogging] if it was called, [FLAGS_logbufsecs], the
    name given to [InitGoogleLogging], the lines logged, the arguments of
    [new Master(...)] and the port variable set in the environment. *)
Record started : Type := mkStarted {
  stderr_logging : option Slave.severity;
  logbufsecs : Z;
  logging_name : string;
  log : list (Slave.severity * list string);
  master_allocator : string;
  master_isFT : bool;
  master_zkserver : string;
  port_variable : option string
}.

(** [main] either calls [exit], having written [cerr] (only what [main]
    itself writes there is kept; what the process has set in its own
    environment ends with it), or spawns the master and waits for it, or
    is in a call of [getopt_long] that has left the array of options, where
    nothing is defined any more.  The web UI is compiled out by the
    [#undef]. *)
Inductive outcome : Type :=
| Exited (status : Z) (cerr : list string)
| Waiting (s : started)
| Undefined.

Definition usage (programName : string) : string :=
  "Usage: " ++ programName ++
  " [--port PORT] [--allocator ALLOCATOR] [--fault-tolerant ZOOKEEPERSERVER] [--quiet]".

Section Main.

(** Set by the build. *)
Variables BUILD_DATE BUILD_USER : string.

(** Whether POSIXLY_CORRECT is set in the environment of the process. *)
Variable POSIXLY_CORRECT : bool.

(** What [main] starts the master with, given the variables the loop has
    left. *)
Definition starting (argv : list string) (v : vars) : started :=
  {| stderr_logging := if negb (quiet v) then Some Slave.INFO else None;
     logbufsecs := 1;
     logging_name := nth 0 argv "";
     log :=
       [(Slave.INFO, ["Build: "; BUILD_DATE; " by "; BUILD_USER]);
        (Slave.INFO, ["Starting Nexus master"])] ++
       (if isFT v
        then [(Slave.INFO, ["Nexus in fault-tolerant mode"])]
        else []);
     master_allocator := allocator v;
     master_isFT := isFT v;
     master_zkserver := zkserver v;
     port_variable := LIBPROCESS_PORT v |}.

(** [int main (int argc, char **argv)] up to [Process::wait(master)]. *)
Definition main (argv : list string) : option outcome :=
  if (length argv =? 2)%nat && String.eqb "--help" (nth 1 argv "") then
    Some (Exited 1 [usage (nth 0 argv "")])
  else
    match loop POSIXLY_CORRECT (S (size (start argv))) (start argv) initial
    with
    | None => None
    | Some (Quit status) => Some (Exited status [])
    | Some Astray => Some Undefined
    | Some (Parsed v) => Some (Waiting (starting argv v))
    end.

(** What [getopt_long] makes of a command line. *)
Definition scan (argv : list string) : list event :=
  run POSIXLY_CORRECT optstring options (start argv).

(** [getopt_long] has returned a question mark: an option is unknown,
    lacks its argument, or was given one it does not take. *)
Definition configuration_error (argv : list string) : Prop :=
  exists optarg, In (Returned "?" optarg) (scan argv).

End Main.

(** The exit status of the process: that of [exit], or the 0 that [main]
    returns once [Process::wait] has returned.  There is none while the
    master runs, and the program determines none once [getopt_long] has left
    the array. *)
Definition exit_status (o : outcome) (master_terminated : bool) : option Z :=
  match o with
  | Exited status _ => Some status
  | Waiting _ => if master_terminated then Some 0 else None
  | Undefined => None
  end.

(** The command line is [--help] alone. *)
Definition help_requested (argv : list string) : Prop :=
  length argv = 2%nat /\ nth 1 argv "" = "--help".

(** *** Command lines, written down option by option

    This is how the usage line and getopt_long(3) say the options of the
    master are written; [main] plays no part in it. *)

(** The options that take an argument. *)
Inductive arg_option : Type :=
| allocator_option | port_option | fault_tolerant_option.

Definition short_name (o : arg_option) : ascii :=
  match o with
  | allocator_option => "a"
  | port_option => "p"
  | fault_tolerant_option => "f"
  end.

Definition long_name (o : arg_option) : string :=
  match o with
  | allocator_option => "allocator"
  | port_option => "port"
  | fault_tolerant_option => "fault-tolerant"
  end.

Definition arg_option_eqb (o1 o2 : arg_option) : bool :=
  match o1, o2 with
  | allocator_option, allocator_option => true
  | port_option, port_option => true
  | fault_tolerant_option, fault_tolerant_option => true
  | _, _ => false
  end.

(** Where the argument of an option stands: in the next element of the
    command line, or in the element of the option itself (behind the
    letter of a short option, behind an equals sign for a long one). *)
Inductive placing : Type := Next | Attached.

(** [quiet_letters k cs] is [k] times the letter q, and then [cs]. *)
Fixpoint quiet_letters (k : nat) (cs : string) : string :=
  match k with
  | O => cs
  | S k' => String "q" (quiet_letters k' cs)
  end.

(** One thing on the command line: [--quiet]; a long option with its
    argument; a dash with any number of q and possibly, last, the letter
    of an option with its argument; or an operand. *)
Inductive item : Type :=
| LongQuiet
| LongOption (o : arg_option) (how : placing) (arg : string)
| ShortOptions (quiets : nat) (last : option (arg_option * placing * string))
| Operand (s : string).

(** The elements of the command line an item is written as. *)
Definition render (i : item) : list string :=
  match i with
  | LongQuiet => ["--quiet"]
  | LongOption o Next arg => [String.append "--" (long_name o); arg]
  | LongOption o Attached arg =>
    [String.append "--" (String.append (long_name o) (String "=" arg))]
  | ShortOptions k None => [String "-" (quiet_letters k "")]
  | ShortOptions k (Some (o, Next, arg)) =>
    [String "-" (quiet_letters k (String (short_name o) "")); arg]
  | ShortOptions k (Some (o, Attached, arg)) =>
    [String "-" (quiet_letters k (String (short_name o) arg))]
  | Operand s => [s]
  end.

(** An item is well written if a dash is followed by a letter at least, an
    argument behind a letter is not empty, and an operand does not look
    like an option; operands stand among the options only where
    [getopt_long] skips them. *)
Definition well_written (posixly_correct : bool) (i : item) : bool :=
  match i with
  | LongQuiet => true
  | LongOption _ _ _ => true
  | ShortOptions k None => negb (k =? 0)%nat
  | ShortOptions _ (Some (_, Next, _)) => true
  | ShortOptions _ (Some (_, Attached, arg)) => negb (String.eqb arg "")
  | Operand s => nonoption s && negb posixly_correct
  end.

(** The arguments an item, and a list of items, give to an option. *)
Definition value_of (o : arg_option) (i : item) : list string :=
  match i with
  | LongOption o' _ arg => if arg_option_eqb o o' then [arg] else []
  | ShortOptions _ (Some (o', _, arg)) =>
    if arg_option_eqb o o' then [arg] else []
  | _ => []
  end.

Definition values (o : arg_option) (items : list item) : list string :=
  flat_map (value_of o) items.

(** The item asks for quiet. *)
Definition quiets (i : item) : bool :=
  match i with
  | LongQuiet => true
  | ShortOptions k _ => negb (k =? 0)%nat
  | _ => false
  end.

(** What may stand behind the options: nothing, a double dash and then
    anything, or, where operands end the scan, an operand and then
    anything. *)
Inductive ending : Type :=
| NothingMore
| DoubleDash (rest : list string)
| FirstOperand (s : string) (rest : list string).

Definition render_ending (e : ending) : list string :=
  match e with
  | NothingMore => []
  | DoubleDash rest => "--" :: rest
  | FirstOperand s rest => s :: rest
  end.

Definition well_ended (posixly_correct : bool) (e : ending) : bool :=
  match e with
  | FirstOperand s _ => nonoption s && posixly_correct
  | _ => true
  end.

(** An element that [getopt_long] must reject: a letter that is no option
    of the master, in a bundle or alone; an option at the very end that
    lacks its argument, short or long; [--quiet] with an argument.  What
    may follow the element is part of it. *)
Inductive rejected : Type :=
| UnknownLetter (quiets : nat) (c : ascii) (cs : string) (rest : list string)
| ShortLacksArgument (quiets : nat) (o : arg_option)
| LongLacksArgument (o : arg_option)
| QuietWithArgument (arg : string) (rest : list string).

Definition render_rejected (r : rejected) : list string :=
  match r with
  | UnknownLetter k c cs rest =>
    String "-" (quiet_letters k (String c cs)) :: rest
  | ShortLacksArgument k o =>
    [String "-" (quiet_letters k (String (short_name o) ""))]
  | LongLacksArgument o => [String.append "--" (long_name o)]
  | QuietWithArgument arg rest => String.append "--quiet=" arg :: rest
  end.

Definition is_letter (c : ascii) : bool :=
  Ascii.eqb c "a" || Ascii.eqb c "p" || Ascii.eqb c "f" || Ascii.eqb c "q".

Definition really_rejected (r : rejected) : bool :=
  match r with
  | UnknownLetter k c _ _ =>
    negb (is_letter c) && negb ((k =? 0)%nat && Ascii.eqb c "-")
  | _ => true
  end.

(** The name in a long option is one of the four of the master. *)
Definition known_long_name (nm : string) : bool :=
  existsb (fun p => String.eqb (name p) nm) (entries options).

(** What [getopt_long] is to return for an item. *)
Definition events (i : item) : list event :=
  match i with
  | LongQuiet => [Returned "q" ""]
  | LongOption o _ arg => [Returned (short_name o) arg]
  | ShortOptions k last =>
    repeat (Returned "q" "") k ++
    match last with
    | Some (o, _, arg) => [Returned (short_name o) arg]
    | None => []
    end
  | Operand _ => []
  end.

(** The list has an element. *)
Definition given (l : list string) : bool :=
  match l with
  | [] => false
  | _ => true
  end.

(** The last element of a list, or [d] if it has none. *)
Definition latest {A : Type} (l : list A) (d : A) : A :=
  fold_left (fun _ x => x) l d.

(** The variables after the items of a command line. *)
Definition after (items : list item) (v : vars) : vars :=
  mkVars (isFT v || given (values fault_tolerant_option items))
         (latest (values fault_tolerant_option items) (zkserver v))
         (quiet v || existsb quiets items)
         (latest (values allocator_option items) (allocator v))
         (latest (List.map Some (values port_option items))
                 (LIBPROCESS_PORT v)).

Definition help_alone : list string := ["nexus-master"; "--help"].

(** A command line in items: bundled letters with the locator attached,
    the allocator twice with an operand in between, the port behind an
    equals sign. *)
Definition configured_items : list item :=
  [ShortOptions 2 (Some (fault_tolerant_option, Attached, "zoo1:2181"));
   LongOption allocator_option Next "simple";
   Operand "operand";
   LongOption allocator_option Attached "fair";
   LongOption port_option Attached "5051"].

Definition quiet_items : list item :=
  [LongOption allocator_option Next "fair"; ShortOptions 1 None].

(** A fault-tolerant option, and then a letter that is no option. *)
Definition locator_then_unknown : list string :=
  "nexus-master" ::
  flat_map render [LongOption fault_tolerant_option Next "zoo1:2181"] ++
  render_rejected (UnknownLetter 0 "x" "" []).

(** Nothing but a letter that is no option. *)
Definition unknown_letter : list string :=
  "nexus-master" :: render_rejected (UnknownLetter 0 "x" "" []).

(** A long option that is none of the four. *)
Definition unknown_long : list string := ["nexus-master"; "----help"].

End MasterMain.

(** ** tests/environment.cpp *)

Module TestEnvironment.
Import Slave.

(** [strings::contains(s, substr)] of stout: [s.find(substr) != npos]. *)
Fixpoint contains (s sub : string) : bool :=
  String.prefix sub s ||
  match s with
  | EmptyString => false
  | String _ s' => contains s' sub
  end.

(** [strings::endsWith(s, suffix)] of stout, for a string that is not
    shorter than the suffix (it is only called on a non-empty string, with a
    suffix of one character). *)
Definition endsWith (s suffix : string) : bool :=
  String.eqb
    (String.substring (String.length s - String.length suffix)
                      (String.length suffix) s)
    suffix.

(** [s.find(c)]: the position of the first [c], [None] for [npos]. *)
Fixpoint find (c : ascii) (s : string) : option nat :=
  match s with
  | EmptyString => None
  | String d s' =>
    if Ascii.eqb d c then Some O else option_map S (find c s')
  end.

(** [s.substr(pos)], up to the end. *)
Definition substr_from (pos : nat) (s : string) : string :=
  String.substring pos (String.length s - pos) s.

(** What [enable] reads of a [::testing::TestInfo]; [type_param] is [None]
    for the null pointer. *)
Record TestInfo : Type := mkTestInfo {
  test_case_name : string;
  name : string;
  type_param : option string
}.

(** What [enable] asks of the machine it runs on: [os::user()], whether
    [/proc/cgroups] exists, whether the file was compiled for Linux, and
    the result of [cgroups::hierarchies()] ([None] when it is an error). *)
Record Host : Type := mkHost {
  user : string;
  proc_cgroups : bool;
  linux : bool;
  hierarchies : option (list string)
}.

(** A result together with what was written to [std::cerr]: one entry, the
    mounted hierarchies, for each banner. *)
Abbreviation answer A := (result string (A * list (list string))).

Definition is_empty (hs : list string) : bool :=
  match hs with
  | [] => true
  | _ => false
  end.

(** The [foreach] over the names in [enable]: [false] is the [return false]
    inside the loop, [true] is falling out of it. *)
Fixpoint checkNames (h : Host) (names : list string) : answer bool :=
  match names with
  | [] => Ok (true, [])
  | name :: names' =>
    if contains name "ROOT_" && negb (String.eqb (user h) "root") then
      Ok (false, [])
    else if contains name "CGROUPS_" && negb (proc_cgroups h) then
      Ok (false, [])
    else if linux h && contains name "NOHIERARCHY_" then
      match hierarchies h with
      | None => Aborted ["Check failed: hierarchies.isSome() "]
      | Some hs =>
        if negb (is_empty hs) then Ok (false, [hs])
        else checkNames h names'
      end
    else checkNames h names'
  end.

(** [static bool enable(const ::testing::TestInfo& test)] *)
Definition enable (h : Host) (test : TestInfo) : answer bool :=
  match checkNames h [test_case_name test; name test] with
  | Aborted d => Aborted d
  | Ok (false, out) => Ok (false, out)
  | Ok (true, out) =>
    match type_param test with
    | Some type =>
      if contains type "CgroupsIsolator" &&
         (negb (String.eqb (user h) "root") || negb (proc_cgroups h))
      then Ok (false, out)
      else Ok (true, out)
    | None => Ok (true, out)
    end
  end.

(** The two nested loops of the constructor over the registered tests,
    taken test by test: a test that is not enabled adds its case name, a
    dot, its name and a colon to [disabled]. *)
Fixpoint disableTests (h : Host) (tests : list TestInfo) (disabled : string) :
  answer string :=
  match tests with
  | [] => Ok (disabled, [])
  | testInfo :: tests' =>
    match enable h testInfo with
    | Aborted d => Aborted d
    | Ok (enabled, out) =>
      let disabled' :=
        if negb enabled then
          String.append
            (String.append
               (String.append
                  (String.append disabled (test_case_name testInfo)) ".")
               (name testInfo))
            ":"
        else disabled in
      match disableTests h tests' disabled' with
      | Aborted d => Aborted d
      | Ok (final, out') => Ok (final, out ++ out')
      end
    end
  end.

(** The parts of gtest that the constructor reads and writes: the filter
    flag and the event listeners. *)
Record Gtest : Type := mkGtest {
  filter : string;
  listeners : list string
}.

(** The split of the filter at its first dash, as the constructor does it:
    the enabled tests before it and the disabled tests behind it. *)
Definition splitFilter (filter : string) : string * string :=
  match find "-" filter with
  | Some dash => (String.substring 0 dash filter, substr_from (dash + 1) filter)
  | None => (filter, EmptyString)
  end.

(** "Use universal filter if not specified." *)
Definition orUniversal (enabled : string) : string :=
  if String.eqb enabled "" then "*" else enabled.

(** "Ensure disabled tests end with ":" separator before we add more." *)
Definition closeList (disabled : string) : string :=
  if negb (String.eqb disabled "") && negb (endsWith disabled ":")
  then String.append disabled ":" else disabled.

(** [Environment::Environment()]; [testCases] is what
    [UnitTest::GetInstance()] holds, case by case. *)
Definition Environment (h : Host) (testCases : list (list TestInfo))
    (g : Gtest) : answer Gtest :=
  let (enabled, disabled) := splitFilter (filter g) in
  let enabled := orUniversal enabled in
  let disabled := closeList disabled in
  match disableTests h (List.concat testCases) disabled with
  | Aborted d => Aborted d
  | Ok (disabled', out) =>
    Ok (mkGtest (String.append (String.append enabled "-") disabled')
                (listeners g ++
                 ["process::FilterTestEventListener";
                  "process::ClockTestEventListener"]),
        out)
  end.

(** The rules in the comment above [enable], as one condition. *)
Definition marked (flag : string) (test : TestInfo) : bool :=
  contains (test_case_name test) flag || contains (name test) flag.

Definition is_root (h : Host) : bool := String.eqb (user h) "root".

Definition nothing_mounted (h : Host) : bool :=
  match hierarchies h with
  | Some hs => is_empty hs
  | None => false
  end.

Definition typed (type : string) (test : TestInfo) : bool :=
  match type_param test with
  | Some t => contains t type
  | None => false
  end.

Definition allowed (h : Host) (test : TestInfo) : bool :=
  (negb (marked "ROOT_" test) || is_root h) &&
  (negb (marked "CGROUPS_" test) || proc_cgroups h) &&
  (negb (linux h && marked "NOHIERARCHY_" test) || nothing_mounted h) &&
  (negb (typed "CgroupsIsolator" test) || (is_root h && proc_cgroups h)).

(** ["TestCase.TestName:"] *)
Definition entry (test : TestInfo) : string :=
  String.append (test_case_name test)
                (String.append "." (String.append (name test) ":")).

(** The entries of the tests of a list that are not allowed, one after
    the other. *)
Fixpoint entries (h : Host) (tests : list TestInfo) : string :=
  match tests with
  | [] => EmptyString
  | test :: tests' =>
    if allowed h test then entries h tests'
    else String.append (entry test) (entries h tests')
  end.

(** Hosts and tests to run the definitions on. *)
Definition root_host : Host := mkHost "root" true true (Some []).
Definition user_host : Host := mkHost "alice" true true (Some ["/cgroup"]).
Definition broken_host : Host := mkHost "root" true true None.

Definition plain_test : TestInfo := mkTestInfo "MasterTest" "TaskRunning" None.
Definition root_test : TestInfo :=
  mkTestInfo "IsolatorTest" "ROOT_Usage" None.
Definition mount_test : TestInfo :=
  mkTestInfo "CgroupsNoHierarchyTest" "ROOT_CGROUPS_NOHIERARCHY_Mount" None.
Definition typed_test : TestInfo :=
  mkTestInfo "AllocatorTest/0" "Balance" (Some "CgroupsIsolator").

Definition registry : list (list TestInfo) :=
  [[plain_test]; [root_test; typed_test]; [mount_test]].

Definition gtest0 : Gtest := mkGtest "Master*-Slow*" [].

End TestEnvironment.

(* ===================================================================== *)
(** * Part II: theorems                                                   *)
(* ===================================================================== *)

Module UPIDFacts.
Import UPID.

Lemma ascii_compare_refl (c : ascii) : Ascii.compare c c = Eq.
Proof. unfold Ascii.compare. apply N.compare_refl. Qed.

Lemma ascii_compare_lt_trans (a b c : ascii) :
  Ascii.compare a b = Lt -> Ascii.compare b c = Lt -> Ascii.compare a c = Lt.
Proof.
  unfold Ascii.compare. rewrite !N.compare_lt_iff. apply N.lt_trans.
Qed.

Lemma string_compare_refl (s : string) : String.compare s s = Eq.
Proof.
  induction s as [|c s IH]; simpl; [reflexivity|].
  now rewrite ascii_compare_refl.
Qed.

Lemma string_compare_lt_trans (s1 : string) :
  forall s2 s3,
    String.compare s1 s2 = Lt -> String.compare s2 s3 = Lt ->
    String.compare s1 s3 = Lt.
Proof.
  induction s1 as [|a s1 IH]; intros [|b s2] [|c s3]; simpl; try congruence.
  destruct (Ascii.compare a b) eqn:Hab; try discriminate.
  - apply Ascii.compare_eq_iff in Hab. subst b.
    destruct (Ascii.compare a c); try congruence. apply IH.
  - destruct (Ascii.compare b c) eqn:Hbc; try discriminate.
    + apply Ascii.compare_eq_iff in Hbc. subst c. now rewrite Hab.
    + now rewrite (ascii_compare_lt_trans _ _ _ Hab Hbc).
Qed.

Lemma string_lt_irrefl (s : string) : string_lt s s = false.
Proof. unfold string_lt, String.ltb. now rewrite string_compare_refl. Qed.

Lemma string_lt_trans (s1 s2 s3 : string) :
  string_lt s1 s2 = true -> string_lt s2 s3 = true -> string_lt s1 s3 = true.
Proof.
  unfold string_lt, String.ltb. intros H12 H23.
  destruct (String.compare s1 s2) eqn:E12; try discriminate.
  destruct (String.compare s2 s3) eqn:E23; try discriminate.
  now rewrite (string_compare_lt_trans _ _ _ E12 E23).
Qed.

(** Either the strings are equal or one is below the other, never two of
    these at once. *)
Lemma string_lt_cases (s1 s2 : string) :
  (s1 = s2 /\ string_lt s1 s2 = false /\ string_lt s2 s1 = false) \/
  (s1 <> s2 /\ string_lt s1 s2 = true /\ string_lt s2 s1 = false) \/
  (s1 <> s2 /\ string_lt s1 s2 = false /\ string_lt s2 s1 = true).
Proof.
  unfold string_lt, String.ltb.
  rewrite (String.compare_antisym s2 s1).
  destruct (String.compare s1 s2) eqn:E; simpl.
  - left. apply String.compare_eq_iff in E. auto.
  - right; left. split; [|split; reflexivity].
    intros ->. rewrite string_compare_refl in E. discriminate.
  - right; right. split; [|split; reflexivity].
    intros ->. rewrite string_compare_refl in E. discriminate.
Qed.

Lemma lt_ne_addr (m : store) (p q : addr) :
  lt m p q = true -> p <> q.
Proof.
  unfold lt. intros H ->. rewrite Pos.eqb_refl in H. discriminate.
Qed.

Lemma lt_lex (m : store) (p q : addr) :
  lt m p q = true <-> p <> q /\ lex_lt (m p) (m q).
Proof.
  unfold lt, lex_lt.
  destruct (Pos.eqb_spec p q) as [->|Hpq]; simpl.
  - split; [discriminate | intros [[] _]; reflexivity].
  - destruct (Z.eqb_spec (ip (m p)) (ip (m q))) as [Hip|Hip];
      destruct (Z.eqb_spec (port (m p)) (port (m q))) as [Hpo|Hpo]; simpl;
      rewrite ?Z.ltb_lt;
      (split; [intros H; split; [assumption|] | intros [_ H]]);
      try (destruct H as [H|[[? H]|[? [? H]]]]);
      try lia; try tauto; try assumption.
Qed.

Lemma eq_fields (m : store) (p q : addr) :
  eq m p q = true <->
  id (m p) = id (m q) /\ ip (m p) = ip (m q) /\ port (m p) = port (m q).
Proof.
  unfold eq. destruct (Pos.eqb_spec p q) as [->|Hpq]; simpl.
  - tauto.
  - rewrite !andb_true_iff, String.eqb_eq, !Z.eqb_eq. tauto.
Qed.

Lemma lex_lt_irrefl (a b : t) :
  id a = id b -> ip a = ip b -> port a = port b -> ~ lex_lt a b.
Proof.
  intros Hid Hip Hpo [H|[[_ H]|[_ [_ H]]]]; try lia.
  rewrite Hid, string_lt_irrefl in H. discriminate.
Qed.

Lemma lex_lt_trans (a b c : t) : lex_lt a b -> lex_lt b c -> lex_lt a c.
Proof.
  unfold lex_lt.
  intros [H1|[[E1 H1]|[E1 [F1 H1]]]] [H2|[[E2 H2]|[E2 [F2 H2]]]];
    try (left; lia); try (right; left; lia).
  right; right. repeat split; try lia. eapply string_lt_trans; eassumption.
Qed.

Lemma lex_lt_asym (a b : t) : lex_lt a b -> ~ lex_lt b a.
Proof.
  intros H1 H2. apply (lex_lt_irrefl a a); auto. eapply lex_lt_trans; eassumption.
Qed.

Lemma lex_lt_total (a b : t) :
  lex_lt a b \/ lex_lt b a \/
  (id a = id b /\ ip a = ip b /\ port a = port b).
Proof.
  unfold lex_lt.
  destruct (Z.lt_trichotomy (ip a) (ip b)) as [H|[H|H]]; [tauto| |right;left;left;lia].
  destruct (Z.lt_trichotomy (port a) (port b)) as [G|[G|G]];
    [tauto| |right;left;right;left;lia].
  destruct (string_lt_cases (id a) (id b)) as [[E _]|[[_ [L _]]|[_ [_ L]]]].
  - right; right. auto.
  - left. right; right. auto.
  - right; left. right; right. auto.
Qed.

(** C10.  [operator<] on UPID is a strict total order that agrees with
    [operator==]: it is irreflexive (on one object, and on any two objects
    that compare equal), transitive, and for any two UPIDs exactly one of
    [a < b], [b < a], [a == b] holds; [a == b] holds exactly when the [id],
    [ip] and [port] fields are pairwise equal, and [a != b] is its negation. *)
Theorem UPID_lt_strict_total_order (m : store) :
  (forall a, lt m a a = false) /\
  (forall a b, eq m a b = true -> lt m a b = false) /\
  (forall a b c, lt m a b = true -> lt m b c = true -> lt m a c = true) /\
  (forall a b,
      exactly_one (lt m a b = true) (lt m b a = true) (eq m a b = true)) /\
  (forall a b,
      eq m a b = true <->
      id (m a) = id (m b) /\ ip (m a) = ip (m b) /\ port (m a) = port (m b)) /\
  (forall a b, ne m a b = negb (eq m a b)).
Proof.
  assert (Hirr : forall a b, eq m a b = true -> lt m a b = false).
  { intros a b He. apply eq_fields in He as (Hid & Hip & Hpo).
    apply not_true_is_false. intros Hl. apply lt_lex in Hl as [_ Hl].
    exact (lex_lt_irrefl _ _ Hid Hip Hpo Hl). }
  split; [|split; [|split; [|split; [|split]]]].
  - intros a. unfold lt. now rewrite Pos.eqb_refl.
  - exact Hirr.
  - intros a b c Hab Hbc.
    apply lt_lex in Hab as [Nab Lab]. apply lt_lex in Hbc as [Nbc Lbc].
    apply lt_lex. split; [|eapply lex_lt_trans; eassumption].
    intros ->. exact (lex_lt_asym _ _ Lab Lbc).
  - intros a b. unfold exactly_one.
    destruct (lt m a b) eqn:Hab.
    + left. split; [reflexivity|]. apply lt_lex in Hab as [Nab Lab]. split.
      * rewrite lt_lex. intros [_ Lba]. exact (lex_lt_asym _ _ Lab Lba).
      * intros He. apply eq_fields in He as (Hid & Hip & Hpo).
        exact (lex_lt_irrefl _ _ Hid Hip Hpo Lab).
    + destruct (lt m b a) eqn:Hba.
      * right; left. split; [discriminate|]. split; [reflexivity|].
        intros He. apply eq_fields in He as (Hid & Hip & Hpo).
        assert (Hf : eq m b a = true) by (apply eq_fields; auto).
        apply Hirr in Hf. congruence.
      * right; right. split; [discriminate|]. split; [discriminate|].
        destruct (Pos.eq_dec a b) as [->|Nab].
        { unfold eq. now rewrite Pos.eqb_refl. }
        apply eq_fields.
        destruct (lex_lt_total (m a) (m b)) as [L|[L|E]]; [| |exact E].
        -- assert (lt m a b = true) by (apply lt_lex; auto). congruence.
        -- assert (lt m b a = true) by (apply lt_lex; auto). congruence.
  - intros a b. apply eq_fields.
  - reflexivity.
Qed.

(** On the sample store: "master" on port 5050 is below "slave" on the same
    port, which is below "master" on port 5051, hence the first is below the
    third. *)
Lemma UPID_lt_strict_total_order_witness :
  lt sample_store 1%positive 2%positive = true /\
  lt sample_store 2%positive 3%positive = true /\
  lt sample_store 1%positive 3%positive = true.
Proof.
  split; [reflexivity|]. split; [reflexivity|].
  apply (proj1 (proj2 (proj2 (UPID_lt_strict_total_order sample_store)))
           1%positive 2%positive 3%positive); reflexivity.
Defined.

End UPIDFacts.

(** ** Resource accounting and the task map of a framework *)

Module CpuMemFacts.

#[global] Instance laws : Slave.ResourcesLaws CpuMem.t.
Proof.
  split; intros; unfold Slave.res_add, Slave.res_sub; simpl;
    unfold CpuMem.add, CpuMem.sub; simpl.
  - destruct r as [c m]; reflexivity.
  - f_equal; lia.
  - f_equal; lia.
  - destruct r1 as [c m]; simpl. f_equal; lia.
Qed.

End CpuMemFacts.

Module FrameworkFacts.
Import Slave.

Section WithTypes.

Context {TaskID FrameworkID ExecutorInfo Params Resources : Type}.
Context `{Countable TaskID} `{ResourcesOps Resources}.

Abbreviation Task := (@Task TaskID FrameworkID Resources).
Abbreviation TaskDescription := (@TaskDescription TaskID Params).
Abbreviation Framework :=
  (@Framework TaskID FrameworkID ExecutorInfo Params Resources _ _).
Abbreviation call := (@call TaskID Resources).

Lemma addTask_present (fw : Framework) tid name res task :
  fw_tasks fw !! tid = Some task ->
  addTask fw tid name res =
  Aborted [Str "Task ID "; OfTaskID tid;
           Str "already exists in framework "; OfFrameworkID (fw_id fw)].
Proof. intros E. unfold addTask. now rewrite E. Qed.

Lemma addTask_absent (fw : Framework) tid name res :
  fw_tasks fw !! tid = None ->
  exists task fw',
    addTask fw tid name res = Ok (task, fw') /\
    task = mkTask tid (fw_id fw) res TASK_STARTING name "" /\
    fw_tasks fw' = <[tid := task]> (fw_tasks fw) /\
    fw_resources fw' = res_add (fw_resources fw) res /\
    fw_queuedTasks fw' = fw_queuedTasks fw.
Proof.
  intros E. unfold addTask. rewrite E. eexists _, _. repeat split.
Qed.

Lemma eraseQueued_firstErased (tid : TaskID) (q : list TaskDescription) :
  firstErased tid q (eraseQueued tid q).
Proof.
  induction q as [|d q IH]; simpl.
  - left. split; [reflexivity|]. intros d Hd. inversion Hd.
  - destruct (decide (td_tid d = tid)) as [E|N].
    + right. exists [], d, q. repeat split; auto.
      intros e He. inversion He.
    + destruct IH as [[Eq Hall]|(pre & d0 & post & Eq & Ed & Hpre & Eq')].
      * left. split; [now rewrite Eq|].
        intros e He. apply elem_of_cons in He as [->|He]; auto.
      * right. exists (d :: pre), d0, post. repeat split; auto.
        -- simpl. now rewrite Eq.
        -- intros e He. apply elem_of_cons in He as [->|He]; auto.
        -- simpl. now rewrite Eq'.
Qed.

(** C1 (as the code has it).  When [addTask] is called with a TaskID that
    is already in the framework's task map, it logs the line "Task ID <tid>
    already exists in framework <id>" at FATAL severity and the process ends
    there: no task is added and nothing else is done.  With a TaskID that is
    not in the map it does not abort: the new task, in state TASK_STARTING
    and owned by the framework, is stored under that id and returned. *)
Theorem addTask_duplicate_aborts (fw : Framework) (tid : TaskID)
    (name : string) (res : Resources) :
  (is_Some (lookupTask fw tid) ->
   addTask fw tid name res =
   Aborted [Str "Task ID "; OfTaskID tid;
            Str "already exists in framework "; OfFrameworkID (fw_id fw)]) /\
  (lookupTask fw tid = None ->
   exists task fw',
     addTask fw tid name res = Ok (task, fw') /\
     lookupTask fw' tid = Some task /\
     task_state task = TASK_STARTING /\
     task_frameworkId task = fw_id fw).
Proof.
  unfold lookupTask. split.
  - intros [task E]. eapply addTask_present; eassumption.
  - intros E.
    destruct (addTask_absent fw tid name res E)
      as (task & fw' & Ha & Ht & Hm & _).
    exists task, fw'. split; [exact Ha|]. split.
    + rewrite Hm. apply lookup_insert_eq.
    + subst task. split; reflexivity.
Qed.

(** C9.  After [removeTask(tid)] the task map has no entry for [tid]
    ([lookupTask] returns null); the queue has lost its first description
    with that id, if it had one, and nothing else; the entry of every other
    id is the same task as before (state and resources included); if [tid]
    was not in the map, the map and the framework's resources are unchanged.
    The remaining fields of the framework are never touched. *)
Theorem removeTask_frame (fw : Framework) (tid : TaskID) :
  lookupTask (removeTask fw tid) tid = None /\
  firstErased tid (fw_queuedTasks fw) (fw_queuedTasks (removeTask fw tid)) /\
  (forall tid', tid' <> tid ->
     lookupTask (removeTask fw tid) tid' = lookupTask fw tid') /\
  (lookupTask fw tid = None ->
     fw_tasks (removeTask fw tid) = fw_tasks fw /\
     fw_resources (removeTask fw tid) = fw_resources fw) /\
  (fw_id (removeTask fw tid) = fw_id fw /\
   fw_name (removeTask fw tid) = fw_name fw /\
   fw_user (removeTask fw tid) = fw_user fw /\
   fw_executorInfo (removeTask fw tid) = fw_executorInfo fw /\
   fw_executorStatus (removeTask fw tid) = fw_executorStatus fw).
Proof.
  unfold lookupTask, removeTask.
  destruct (fw_tasks fw !! tid) as [task|] eqn:E; simpl.
  - split; [apply lookup_delete_eq|].
    split; [apply eraseQueued_firstErased|].
    split; [intros tid' N; now apply lookup_delete_ne|].
    split; [discriminate|]. repeat split.
  - split; [exact E|].
    split; [apply eraseQueued_firstErased|].
    split; [reflexivity|].
    split; [intros _; split; reflexivity|]. repeat split.
Qed.

Section Accounting.

Context `{!ResourcesLaws Resources}.

Lemma res_add_swap (y r1 r2 : Resources) :
  res_add (res_add y r2) r1 = res_add (res_add y r1) r2.
Proof.
  rewrite <- !res_add_assoc. f_equal. apply res_add_comm.
Qed.

Lemma sumResources_empty :
  sumResources (FrameworkID := FrameworkID) (∅ : gmap TaskID Task) = res_default.
Proof. unfold sumResources. apply map_fold_empty. Qed.

Lemma sumResources_singleton tid (task : Task) :
  sumResources ({[tid := task]} : gmap TaskID Task) = task_resources task.
Proof.
  unfold sumResources. rewrite map_fold_singleton. apply res_default_neutral.
Qed.

Lemma sumResources_insert (m : gmap TaskID Task) tid task :
  m !! tid = None ->
  sumResources (<[tid := task]> m) =
  res_add (sumResources m) (task_resources task).
Proof.
  intros E. unfold sumResources.
  rewrite map_fold_insert_L; [reflexivity| |exact E].
  intros. apply res_add_swap.
Qed.

Lemma sumResources_delete (m : gmap TaskID Task) tid task :
  m !! tid = Some task ->
  sumResources m =
  res_add (sumResources (delete tid m)) (task_resources task).
Proof.
  intros E. unfold sumResources.
  rewrite (map_fold_delete_L _ _ tid task m); [reflexivity| |exact E].
  intros. apply res_add_swap.
Qed.

Lemma accounted_new id name user info :
  accounted (newFramework id name user info : Framework).
Proof. unfold accounted. simpl. now rewrite sumResources_empty. Qed.

Lemma accounted_addTask (fw fw' : Framework) tid name res task :
  accounted fw -> addTask fw tid name res = Ok (task, fw') -> accounted fw'.
Proof.
  unfold accounted, addTask. intros Hinv.
  destruct (fw_tasks fw !! tid) eqn:E; [discriminate|].
  intros [= <- <-]. simpl.
  rewrite sumResources_insert by exact E. simpl. now rewrite Hinv.
Qed.

Lemma accounted_removeTask (fw : Framework) tid :
  accounted fw -> accounted (removeTask fw tid).
Proof.
  unfold accounted, removeTask. intros Hinv.
  destruct (fw_tasks fw !! tid) as [task|] eqn:E; simpl; [|exact Hinv].
  rewrite Hinv, (sumResources_delete _ _ _ E). apply res_add_sub.
Qed.

Lemma accounted_perform (fw fw' : Framework) (c : call) :
  accounted fw -> perform fw c = Ok fw' -> accounted fw'.
Proof.
  intros Hinv. destruct c as [tid name res|tid]; simpl.
  - destruct (addTask fw tid name res) as [[task fw1]|d] eqn:E; simpl;
      [|discriminate].
    intros [= <-]. eapply accounted_addTask; eassumption.
  - intros [= <-]. now apply accounted_removeTask.
Qed.

Lemma accounted_performAll (cs : list call) :
  forall fw fw' : Framework,
    accounted fw -> performAll cs fw = Ok fw' -> accounted fw'.
Proof.
  induction cs as [|c cs IH]; intros fw fw' Hinv; simpl.
  - intros [= <-]. exact Hinv.
  - destruct (perform fw c) as [fw1|d] eqn:E; simpl; [|discriminate].
    apply IH. eapply accounted_perform; eassumption.
Qed.

(** C8.  Starting from a freshly constructed framework, after any sequence
    of [addTask] and [removeTask] calls the [resources] field is the sum of
    the resources of the tasks in the task map; [addTask] adds the resources
    of the new task, and [removeTask] subtracts those of the task it
    removes. *)
Theorem framework_resources_sum :
  (forall (cs : list call) id name user info (fw : Framework),
      performAll cs (newFramework id name user info) = Ok fw ->
      fw_resources fw = sumResources (fw_tasks fw)) /\
  (forall (fw fw' : Framework) tid name res task,
      addTask fw tid name res = Ok (task, fw') ->
      task_resources task = res /\
      fw_resources fw' = res_add (fw_resources fw) res) /\
  (forall (fw : Framework) tid task,
      lookupTask fw tid = Some task ->
      fw_resources (removeTask fw tid) =
      res_sub (fw_resources fw) (task_resources task)).
Proof.
  split; [|split].
  - intros cs id name user info fw Hrun.
    apply (accounted_performAll cs _ fw (accounted_new id name user info) Hrun).
  - intros fw fw' tid name res task. unfold addTask.
    destruct (fw_tasks fw !! tid); [discriminate|].
    intros [= <- <-]. split; reflexivity.
  - intros fw tid task. unfold lookupTask, removeTask. now intros ->.
Qed.

End Accounting.

End WithTypes.

(** The claim of C1 as the spec has it, that [addTask] never ends the
    process, fails on [Sample.framework1]: T1 is in its task map, and adding
    T1 again aborts. *)
Lemma addTask_duplicate_counterexample :
  lookupTask Sample.framework1 "T1" = Some Sample.task1 /\
  addTask Sample.framework1 "T1" "map" Sample.map_res =
  Aborted [Str "Task ID "; OfTaskID "T1";
           Str "already exists in framework "; OfFrameworkID "201010-0"] /\
  ~ (exists r, addTask Sample.framework1 "T1" "map" Sample.map_res = Ok r).
Proof.
  split; [vm_compute; reflexivity|].
  split; [vm_compute; reflexivity|].
  intros [r Hr]. vm_compute in Hr. discriminate.
Qed.

Lemma addTask_duplicate_aborts_witness :
  (is_Some (lookupTask Sample.framework1 "T1") /\
   addTask Sample.framework1 "T1" "map" Sample.map_res =
   Aborted [Str "Task ID "; OfTaskID "T1";
            Str "already exists in framework "; OfFrameworkID "201010-0"]) /\
  (lookupTask Sample.framework0 "T1" = None /\
   exists task fw',
     addTask Sample.framework0 "T1" "map" Sample.map_res = Ok (task, fw') /\
     lookupTask fw' "T1" = Some task /\
     task_state task = TASK_STARTING /\
     task_frameworkId task = fw_id Sample.framework0).
Proof.
  split.
  - assert (Hs : is_Some (lookupTask Sample.framework1 "T1"))
      by (exists Sample.task1; vm_compute; reflexivity).
    split; [exact Hs|].
    exact (proj1 (addTask_duplicate_aborts Sample.framework1 "T1" "map"
                    Sample.map_res) Hs).
  - assert (Hn : lookupTask Sample.framework0 "T1" = None)
      by (vm_compute; reflexivity).
    split; [exact Hn|].
    exact (proj2 (addTask_duplicate_aborts Sample.framework0 "T1" "map"
                    Sample.map_res) Hn).
Defined.

Lemma removeTask_frame_witness :
  "T2" <> "T1" /\
  lookupTask (removeTask Sample.framework2 "T1") "T2" = Some Sample.task2 /\
  fw_queuedTasks (removeTask Sample.framework2 "T1") =
  [Sample.queued2; Sample.queued1] /\
  lookupTask Sample.framework3 "T1" = None /\
  fw_tasks (removeTask Sample.framework3 "T1") = fw_tasks Sample.framework3.
Proof.
  pose proof (removeTask_frame Sample.framework2 "T1") as (_ & _ & Hoth & _).
  pose proof (removeTask_frame Sample.framework3 "T1") as (_ & _ & _ & Habs & _).
  assert (Hne : "T2" <> "T1") by discriminate.
  assert (Hn : lookupTask Sample.framework3 "T1" = None)
    by (vm_compute; reflexivity).
  split; [exact Hne|].
  split; [rewrite (Hoth "T2" Hne); vm_compute; reflexivity|].
  split; [vm_compute; reflexivity|].
  split; [exact Hn|].
  exact (proj1 (Habs Hn)).
Defined.

Lemma framework_resources_sum_witness :
  performAll Sample.calls Sample.framework0 = Ok Sample.framework3 /\
  fw_resources Sample.framework3 = sumResources (fw_tasks Sample.framework3).
Proof.
  assert (Hrun : performAll Sample.calls Sample.framework0 = Ok Sample.framework3)
    by (vm_compute; reflexivity).
  split; [exact Hrun|].
  exact (proj1 (framework_resources_sum (ResourcesLaws0 := CpuMemFacts.laws))
           Sample.calls _ _ _ _ Sample.framework3 Hrun).
Defined.

End FrameworkFacts.

(** ** The leader listener *)

Module ListenerFacts.
Import Slave.

Section WithTypes.

Context {TaskID FrameworkID SlaveID ExecutorInfo Params Resources : Type}.
Context `{Countable TaskID} `{Countable FrameworkID}.

Abbreviation World :=
  (@World TaskID FrameworkID SlaveID ExecutorInfo Params Resources _ _ _ _).

Lemma newLeaderElected_named (pp : UPID.t) (w : World) zkId pidStr :
  String.eqb zkId "" = false ->
  sent (newLeaderElected pp w zkId pidStr) =
    sent w ++ [(pp, LE2S_NEWLEADER pidStr)] /\
  slave_zkserver (parent (newLeaderElected pp w zkId pidStr)) = pidStr.
Proof. intros E. unfold newLeaderElected. rewrite E. simpl. auto. Qed.

Lemma last_cons_default {A : Type} (l : list A) (x d : A) :
  List.last (x :: l) d = List.last l x.
Proof.
  revert x d. induction l as [|y l IH]; intros x d; [reflexivity|].
  change (List.last (x :: y :: l) d) with (List.last (y :: l) d).
  rewrite IH. symmetry. apply IH.
Qed.

Lemma deliver_cons (pp : UPID.t) e events (w : World) :
  deliver pp (e :: events) w =
  deliver pp events (newLeaderElected pp w (fst e) (snd e)).
Proof. reflexivity. Qed.

(** C2 (as the code has it).  The listener keeps no epoch and compares
    none: of a sequence of election events it acts on every one whose
    ephemeral id is not empty, in order, and on no other.  The messages it
    sends are the new-leader messages of exactly those events, and the
    locator it leaves in the slave is that of the last of them (the old one
    if there is none). *)
Theorem deliver_acts_on_every_named_event (pp : UPID.t)
    (events : list (string * string)) (w : World) :
  sent (deliver pp events w) =
    sent w ++ map (fun e => (pp, LE2S_NEWLEADER (snd e))) (named events) /\
  slave_zkserver (parent (deliver pp events w)) =
    List.last (map snd (named events)) (slave_zkserver (parent w)).
Proof.
  revert w. induction events as [|e events IH]; intros w.
  - simpl. now rewrite app_nil_r.
  - rewrite deliver_cons. destruct (IH (newLeaderElected pp w (fst e) (snd e)))
      as [IHs IHz]. rewrite IHs, IHz. clear IH IHs IHz.
    unfold named. simpl.
    destruct (String.eqb (fst e) "") eqn:E; simpl.
    + unfold newLeaderElected. rewrite E. simpl. auto.
    + destruct (newLeaderElected_named pp w (fst e) (snd e) E) as [-> ->].
      split.
      * now rewrite <- app_assoc.
      * symmetry.
        exact (last_cons_default _ (snd e) (slave_zkserver (parent w))).
Qed.

(** C5.  An election event whose ephemeral id is the empty string changes
    nothing: the world after it is the world before it, so the locator the
    slave holds is the same and no message has been sent. *)
Theorem newLeaderElected_empty_id (pp : UPID.t) (w : World)
    (pidStr : string) :
  newLeaderElected pp w "" pidStr = w /\
  slave_zkserver (parent (newLeaderElected pp w "" pidStr)) =
    slave_zkserver (parent w) /\
  sent (newLeaderElected pp w "" pidStr) = sent w.
Proof. repeat split. Qed.

End WithTypes.

(** The claim of C2 as the spec has it fails: after an event with ephemeral
    id 0000000007 the listener acts on a second event with the same id, and
    then on one with the smaller id 0000000003; each replaces the locator
    and sends a message. *)
Lemma newLeaderElected_stale_epoch_counterexample :
  String.ltb "0000000007" "0000000007" = false /\
  String.ltb "0000000007" "0000000003" = false /\
  Sample.world2 <> Sample.world1 /\
  slave_zkserver (parent Sample.world2) = "master@10.0.0.2:5050" /\
  sent Sample.world2 =
    sent Sample.world1 ++
    [(Sample.slavePID, LE2S_NEWLEADER "master@10.0.0.2:5050")] /\
  Sample.world3 <> Sample.world2 /\
  slave_zkserver (parent Sample.world3) = "master@10.0.0.3:5050" /\
  sent Sample.world3 =
    sent Sample.world2 ++
    [(Sample.slavePID, LE2S_NEWLEADER "master@10.0.0.3:5050")].
Proof.
  repeat split; try reflexivity.
  - intros Heq. apply (f_equal (fun w => length (sent w))) in Heq.
    vm_compute in Heq. discriminate.
  - intros Heq. apply (f_equal (fun w => length (sent w))) in Heq.
    vm_compute in Heq. discriminate.
Qed.

End ListenerFacts.

(** ** The master's command line *)

Module GetoptFacts.
Import Getopt.

Abbreviation weight args :=
  (list_sum (List.map (fun arg => S (String.length arg)) args)).

Lemma skip_nonoptions_weight (args : list string) :
  (weight (skip_nonoptions args) <= weight args)%nat.
Proof.
  induction args as [|arg args IH]; simpl; [lia|].
  destruct (nonoption arg); simpl; lia.
Qed.

Ltac answer_size := intros [= <- <- <-]; simpl; lia.

Lemma short_option_size optstring c cs rest v optarg st' :
  short_option optstring c cs rest = (v, optarg, st') ->
  (size st' <= String.length cs + weight rest)%nat.
Proof.
  unfold short_option, size.
  destruct (strchr optstring c) as [temp|]; [|answer_size].
  destruct (Ascii.eqb c ":" || Ascii.eqb c ";"); [answer_size|].
  destruct (colon_at 1 temp); [|answer_size].
  destruct (colon_at 2 temp); [answer_size|].
  destruct cs as [|c' cs']; [|answer_size].
  destruct rest as [|arg rest']; answer_size.
Qed.

Lemma long_option_size longopts text rest v optarg st' :
  long_option_at longopts text rest = (v, optarg, st') ->
  (size st' <= weight rest)%nat.
Proof.
  unfold long_option_at, size.
  destruct (split_equals text) as [nm given].
  destruct (find_long longopts nm) as [p| |]; [|answer_size|answer_size].
  destruct given as [g|], (has_arg p), rest as [|arg rest']; answer_size.
Qed.

(** Every call that returns an option leaves less to read. *)
Lemma getopt_long_progress posix optstring longopts st c optarg st' :
  getopt_long posix optstring longopts st = (Char c, optarg, st') ->
  (size st' < size st)%nat.
Proof.
  unfold getopt_long. destruct st as [pend next]. simpl.
  destruct next as [|d ds].
  - assert (Hw : (weight (if posix then pend else skip_nonoptions pend)
                  <= weight pend)%nat).
    { destruct posix; [lia | apply skip_nonoptions_weight]. }
    destruct (if posix then pend else skip_nonoptions pend)
      as [|arg rest]; [discriminate|].
    simpl in Hw.
    destruct (String.eqb arg "--"); [discriminate|].
    destruct (nonoption arg); [discriminate|].
    destruct arg as [|a0 [|a1 text]]; try discriminate.
    simpl in Hw. destruct (Ascii.eqb a1 "-").
    + intros E. apply long_option_size in E. unfold size at 2. simpl. lia.
    + intros E. apply short_option_size in E. unfold size at 2. simpl. lia.
  - intros E. apply short_option_size in E. unfold size at 2. simpl. lia.
Qed.

(** With fuel above the size the series of calls is complete: more fuel
    does not lengthen it. *)
Lemma trace_fuel posix optstring longopts (fuel1 : nat) :
  forall fuel2 st,
    (size st < fuel1)%nat -> (size st < fuel2)%nat ->
    trace posix optstring longopts fuel1 st =
    trace posix optstring longopts fuel2 st.
Proof.
  induction fuel1 as [|fuel1 IH]; intros fuel2 st H1 H2; [lia|].
  destruct fuel2 as [|fuel2]; [lia|]. simpl.
  destruct (getopt_long posix optstring longopts st)
    as [[[|c|] optarg] st'] eqn:E; try reflexivity.
  apply getopt_long_progress in E. f_equal. apply IH; lia.
Qed.

Lemma trace_S posix optstring longopts fuel st :
  trace posix optstring longopts (S fuel) st =
  match getopt_long posix optstring longopts st with
  | (EOF, _, _) => []
  | (Overrun, _, _) => [Overran]
  | (Char c, optarg, st') =>
    Returned c optarg :: trace posix optstring longopts fuel st'
  end.
Proof. reflexivity. Qed.

(** A series of calls, unfolded by one call. *)
Lemma run_unfold posix optstring longopts st :
  run posix optstring longopts st =
  match getopt_long posix optstring longopts st with
  | (EOF, _, _) => []
  | (Overrun, _, _) => [Overran]
  | (Char c, optarg, st') =>
    Returned c optarg :: run posix optstring longopts st'
  end.
Proof.
  unfold run at 1. rewrite trace_S.
  destruct (getopt_long posix optstring longopts st)
    as [[[|c|] optarg] st'] eqn:E; try reflexivity.
  apply getopt_long_progress in E. f_equal. unfold run.
  apply trace_fuel; lia.
Qed.

Lemma run_same_call posix optstring longopts st1 st2 :
  getopt_long posix optstring longopts st1 =
  getopt_long posix optstring longopts st2 ->
  run posix optstring longopts st1 = run posix optstring longopts st2.
Proof. intros E. now rewrite (run_unfold _ _ _ st1), E, <- run_unfold. Qed.

End GetoptFacts.

Module MasterMainFacts.
Import Getopt MasterMain GetoptFacts.

Abbreviation runs posix st := (run posix optstring options st).

(** The loop runs the [switch] over what the calls of [getopt_long] come
    to, and the fuel [main] gives it is enough. *)
Lemma loop_dispatchAll posix (fuel : nat) :
  forall st v,
    (size st < fuel)%nat ->
    loop posix fuel st v =
    Some (dispatchAll (trace posix optstring options fuel st) v).
Proof.
  induction fuel as [|fuel IH]; intros st v Hsize; [lia|]. simpl.
  destruct (getopt_long posix optstring options st)
    as [[[|c|] optarg] st'] eqn:E; try reflexivity.
  apply getopt_long_progress in E. simpl.
  destruct (dispatch c optarg v) as [v'|status]; [|reflexivity].
  apply IH. lia.
Qed.

Lemma dispatch_question (optarg : string) (v : vars) :
  dispatch "?" optarg v = inr 1.
Proof. reflexivity. Qed.

Lemma dispatch_status (opt : ascii) (optarg : string) (v : vars) status :
  dispatch opt optarg v = inr status -> status = 1 /\ opt = "?"%char.
Proof.
  unfold dispatch.
  destruct (Ascii.eqb opt "a"); [discriminate|].
  destruct (Ascii.eqb opt "p"); [discriminate|].
  destruct (Ascii.eqb opt "f"); [discriminate|].
  destruct (Ascii.eqb opt "q"); [discriminate|].
  destruct (Ascii.eqb_spec opt "?") as [->|N]; [|discriminate].
  intros [= <-]. auto.
Qed.

Lemma dispatchAll_status (t : list event) :
  forall v status, dispatchAll t v = Quit status ->
    status = 1 /\ exists optarg, In (Returned "?" optarg) t.
Proof.
  induction t as [|[c optarg|] t IH]; intros v status; simpl;
    try discriminate.
  destruct (dispatch c optarg v) as [v'|st] eqn:E.
  - intros Hq. destruct (IH _ _ Hq) as (-> & o & Hin). eauto.
  - intros [= <-]. apply dispatch_status in E as [-> ->]. eauto.
Qed.

(** *** What [getopt_long] makes of a well written command line *)

Lemma run_quiet_letters posix (k : nat) (cs : string) (pend : list string) :
  runs posix (mkState pend (quiet_letters k cs)) =
  repeat (Returned "q" "") k ++ runs posix (mkState pend cs).
Proof.
  induction k as [|k IH]; [reflexivity|].
  rewrite run_unfold. simpl. now rewrite IH.
Qed.

Lemma run_dash posix (c : ascii) (cs : string) (tail : list string) :
  Ascii.eqb c "-" = false ->
  runs posix (mkState (String "-" (String c cs) :: tail) "") =
  runs posix (mkState tail (String c cs)).
Proof.
  intros Hc. apply run_same_call. unfold getopt_long.
  cbn [nextchar pending].
  assert (Hs : skip_nonoptions (String "-" (String c cs) :: tail) =
               String "-" (String c cs) :: tail) by reflexivity.
  assert (He : String.eqb (String "-" (String c cs)) "--" = false).
  { cbn [String.eqb]. now rewrite Hc. }
  rewrite Hs. destruct posix; rewrite He; cbn [nonoption];
    rewrite Hc; reflexivity.
Qed.

Lemma run_letter_next posix (o : arg_option) (arg : string)
    (tail : list string) :
  runs posix (mkState (arg :: tail) (String (short_name o) "")) =
  Returned (short_name o) arg :: runs posix (mkState tail "").
Proof. rewrite run_unfold. destruct o; reflexivity. Qed.

Lemma run_letter_attached posix (o : arg_option) (arg : string)
    (tail : list string) :
  String.eqb arg "" = false ->
  runs posix (mkState tail (String (short_name o) arg)) =
  Returned (short_name o) arg :: runs posix (mkState tail "").
Proof.
  intros Harg. rewrite run_unfold.
  destruct arg as [|a arg]; [discriminate|]. destruct o; reflexivity.
Qed.

Lemma run_long_quiet posix (tail : list string) :
  runs posix (mkState ("--quiet" :: tail) "") =
  Returned "q" "" :: runs posix (mkState tail "").
Proof. rewrite run_unfold. destruct posix; reflexivity. Qed.

Lemma run_long_next posix (o : arg_option) (arg : string)
    (tail : list string) :
  runs posix (mkState (String.append "--" (long_name o) :: arg :: tail) "") =
  Returned (short_name o) arg :: runs posix (mkState tail "").
Proof. rewrite run_unfold. destruct o, posix; reflexivity. Qed.

Lemma run_long_attached posix (o : arg_option) (arg : string)
    (tail : list string) :
  runs posix
       (mkState (String.append "--"
                   (String.append (long_name o) (String "=" arg)) :: tail) "") =
  Returned (short_name o) arg :: runs posix (mkState tail "").
Proof. rewrite run_unfold. destruct o, posix; reflexivity. Qed.

Lemma run_operand (s : string) (tail : list string) :
  nonoption s = true ->
  runs false (mkState (s :: tail) "") = runs false (mkState tail "").
Proof.
  intros Hs. apply run_same_call. unfold getopt_long.
  cbn [nextchar pending skip_nonoptions]. now rewrite Hs.
Qed.

Lemma short_name_no_dash (o : arg_option) :
  Ascii.eqb (short_name o) "-" = false.
Proof. destruct o; reflexivity. Qed.

Lemma run_short_options posix (k : nat) (text : string)
    (tail : list string) :
  (k = O -> exists c cs, text = String c cs /\ Ascii.eqb c "-" = false) ->
  runs posix (mkState (String "-" (quiet_letters k text) :: tail) "") =
  repeat (Returned "q" "") k ++ runs posix (mkState tail text).
Proof.
  intros Hk. destruct k as [|k].
  - destruct (Hk eq_refl) as (c & cs & -> & Hc). simpl.
    now apply run_dash.
  - cbn [quiet_letters]. rewrite run_dash by reflexivity.
    exact (run_quiet_letters posix (S k) text tail).
Qed.

Lemma run_item posix (i : item) (tail : list string) :
  well_written posix i = true ->
  runs posix (mkState (render i ++ tail) "") =
  events i ++ runs posix (mkState tail "").
Proof.
  destruct i as [|o [|] arg|k [[[o [|]] arg]|]|s]; simpl; intros Hw.
  - apply run_long_quiet.
  - apply run_long_next.
  - apply run_long_attached.
  - rewrite run_short_options
      by (intros _; exists (short_name o), ""; split;
          [reflexivity | apply short_name_no_dash]).
    rewrite run_letter_next. now rewrite <- app_assoc.
  - rewrite run_short_options
      by (intros _; exists (short_name o), arg; split;
          [reflexivity | apply short_name_no_dash]).
    rewrite run_letter_attached
      by (now apply negb_true_iff in Hw).
    now rewrite <- app_assoc.
  - rewrite run_short_options.
    + now rewrite app_nil_r.
    + intros ->. discriminate.
  - apply andb_true_iff in Hw as [Hs Hp].
    apply negb_true_iff in Hp. subst posix. now apply run_operand.
Qed.

Lemma run_items posix (items : list item) (tail : list string) :
  forallb (well_written posix) items = true ->
  runs posix (mkState (flat_map render items ++ tail) "") =
  flat_map events items ++ runs posix (mkState tail "").
Proof.
  induction items as [|i items IH]; simpl; [reflexivity|].
  intros Hw. apply andb_true_iff in Hw as [Hi Hw].
  rewrite <- !app_assoc. rewrite run_item by exact Hi. now rewrite IH.
Qed.

Lemma run_ending posix (e : ending) :
  well_ended posix e = true ->
  runs posix (mkState (render_ending e) "") = [].
Proof.
  destruct e as [|rest|s rest]; simpl; intros Hw.
  - rewrite run_unfold. destruct posix; reflexivity.
  - rewrite run_unfold. destruct posix; reflexivity.
  - apply andb_true_iff in Hw as [Hs ->].
    rewrite run_unfold. unfold getopt_long. simpl.
    rewrite Hs. destruct (String.eqb s "--"); reflexivity.
Qed.

Lemma strchr_unknown (c : ascii) (cs : string) (rest : list string) :
  is_letter c = false ->
  short_option optstring c cs rest = (Char "?", "", mkState rest cs).
Proof.
  unfold is_letter. rewrite !orb_false_iff. intros [[[Ha Hp] Hf] Hq].
  unfold short_option, optstring. cbn [strchr].
  rewrite (Ascii.eqb_sym "a" c), Ha, (Ascii.eqb_sym "p" c), Hp,
    (Ascii.eqb_sym "f" c), Hf, (Ascii.eqb_sym "q" c), Hq.
  destruct (Ascii.eqb_spec ":" c) as [<-|N]; reflexivity.
Qed.

Lemma run_rejected posix (r : rejected) :
  really_rejected r = true ->
  exists k optarg more,
    runs posix (mkState (render_rejected r) "") =
    repeat (Returned "q" "") k ++ Returned "?" optarg :: more.
Proof.
  destruct r as [k c cs rest|k o|o|arg rest]; simpl; intros Hr.
  - apply andb_true_iff in Hr as [Hl Hd].
    apply negb_true_iff in Hl. apply negb_true_iff in Hd.
    exists k. rewrite run_short_options.
    + rewrite run_unfold. unfold getopt_long. cbn [nextchar pending].
      rewrite (strchr_unknown _ _ _ Hl). eauto.
    + intros ->. exists c, cs. split; [reflexivity|].
      simpl in Hd. exact Hd.
  - exists k. rewrite run_short_options
      by (intros _; exists (short_name o), ""; split;
          [reflexivity | apply short_name_no_dash]).
    rewrite run_unfold. destruct o; simpl; eauto.
  - exists O. rewrite run_unfold. destruct o, posix; simpl; eauto.
  - exists O. rewrite run_unfold.
    change (String.append "--quiet=" arg)
      with (String "-" (String "-" (String.append "quiet=" arg))).
    destruct posix; simpl; eauto.
Qed.

Lemma find_long_unknown (nm : string) :
  known_long_name nm = false -> find_long options nm = PastEnd.
Proof.
  unfold known_long_name, find_long, options. cbn [entries terminated].
  cbn [existsb List.find name]. rewrite !orb_false_iff.
  intros (-> & -> & -> & -> & _). reflexivity.
Qed.

Lemma run_unknown_long posix (text : string) (rest : list string) :
  text <> "" ->
  known_long_name (fst (split_equals text)) = false ->
  runs posix (mkState (String.append "--" text :: rest) "") = [Overran].
Proof.
  intros Ht Hn. rewrite run_unfold.
  change (String.append "--" text) with (String "-" (String "-" text)).
  destruct text as [|t text]; [contradiction|].
  assert (Hcall : getopt_long posix optstring options
                    (mkState (String "-" (String "-" (String t text)) :: rest)
                             "") =
                  long_option_at options (String t text) rest).
  { unfold getopt_long. destruct posix; reflexivity. }
  rewrite Hcall. unfold long_option_at.
  destruct (split_equals (String t text)) as [nm given]. simpl in Hn.
  now rewrite (find_long_unknown _ Hn).
Qed.

(** *** What the loop makes of it *)

Lemma latest_app {A : Type} (l1 l2 : list A) (d : A) :
  latest (l1 ++ l2) d = latest l2 (latest l1 d).
Proof. unfold latest. apply fold_left_app. Qed.

Lemma last_behind {A : Type} (l : list A) :
  forall a d, List.last (a :: l) d = List.last l a.
Proof.
  induction l as [|b l IH]; intros a d; [reflexivity|].
  change (List.last (a :: b :: l) d) with (List.last (b :: l) d).
  now rewrite (IH b d), (IH b a).
Qed.

Lemma latest_last {A : Type} (l : list A) :
  forall d, latest l d = List.last l d.
Proof.
  induction l as [|a l IH]; intros d; [reflexivity|].
  change (latest (a :: l) d) with (latest l a).
  now rewrite IH, last_behind.
Qed.

Lemma given_app (l1 l2 : list string) :
  given (l1 ++ l2) = given l1 || given l2.
Proof. destruct l1; reflexivity. Qed.

Lemma given_not_nil (l : list string) : given l = true <-> l <> [].
Proof. destruct l; simpl; split; congruence. Qed.

Lemma after_cons (i : item) (items : list item) (v : vars) :
  after (i :: items) v = after items (after [i] v).
Proof.
  unfold after, values. cbn [flat_map existsb isFT zkserver quiet allocator
                             LIBPROCESS_PORT].
  rewrite !app_nil_r, !map_app, !latest_app, given_app, !orb_false_r,
    !orb_assoc.
  reflexivity.
Qed.

Lemma dispatchAll_quiets (k : nat) (l : list event) (v : vars) :
  dispatchAll (repeat (Returned "q" "") k ++ l) v =
  dispatchAll l (mkVars (isFT v) (zkserver v)
                        (quiet v || negb (k =? 0)%nat)
                        (allocator v) (LIBPROCESS_PORT v)).
Proof.
  revert v. induction k as [|k IH]; intros v.
  - simpl. rewrite orb_false_r. now destruct v.
  - cbn [repeat app dispatchAll]. unfold dispatch. simpl.
    rewrite IH. simpl. rewrite !orb_true_r.
    destruct k; reflexivity.
Qed.

Lemma dispatchAll_letter (o : arg_option) (arg : string) (l : list event)
    (v : vars) :
  dispatchAll (Returned (short_name o) arg :: l) v =
  dispatchAll l
    (mkVars (isFT v || arg_option_eqb fault_tolerant_option o)
            (if arg_option_eqb fault_tolerant_option o
             then arg else zkserver v)
            (quiet v)
            (if arg_option_eqb allocator_option o then arg else allocator v)
            (if arg_option_eqb port_option o
             then Some arg else LIBPROCESS_PORT v)).
Proof.
  destruct o, v; simpl; rewrite ?orb_false_r, ?orb_true_r; reflexivity.
Qed.

Lemma dispatchAll_item (i : item) (l : list event) (v : vars) :
  dispatchAll (events i ++ l) v = dispatchAll l (after [i] v).
Proof.
  destruct i as [|o how arg|k [[[o how] arg]|]|s]; unfold after, values;
    cbn [events flat_map value_of existsb quiets app].
  - change (Returned "q" "" :: l)
      with (repeat (Returned "q" "") 1 ++ l).
    rewrite dispatchAll_quiets. f_equal.
    destruct v; simpl; rewrite ?orb_false_r; reflexivity.
  - rewrite dispatchAll_letter. rewrite !app_nil_r. f_equal.
    destruct o, v; simpl; rewrite ?orb_false_r; reflexivity.
  - rewrite <- app_assoc, dispatchAll_quiets. cbn [app].
    rewrite dispatchAll_letter. rewrite !app_nil_r. f_equal.
    destruct o, v, k; simpl; rewrite ?orb_false_r, ?orb_true_r;
      reflexivity.
  - rewrite app_nil_r, dispatchAll_quiets. f_equal.
    destruct v, k; simpl; rewrite ?orb_false_r, ?orb_true_r; reflexivity.
  - f_equal. destruct v; simpl; rewrite ?orb_false_r; reflexivity.
Qed.

Lemma dispatchAll_items (items : list item) :
  forall (l : list event) (v : vars),
    dispatchAll (flat_map events items ++ l) v =
    dispatchAll l (after items v).
Proof.
  induction items as [|i items IH]; intros l v.
  - simpl. unfold after. simpl. rewrite !orb_false_r. now destruct v.
  - cbn [flat_map]. rewrite <- app_assoc, dispatchAll_item, IH.
    now rewrite <- after_cons.
Qed.

(** *** [--help] alone *)

Lemma nth_1_hd (a0 : string) (l : list string) :
  nth 1 (a0 :: l) "" = hd "" l.
Proof. destruct l; reflexivity. Qed.

Lemma hd_item posix (i : item) (tail : list string) :
  well_written posix i = true -> hd "" (render i ++ tail) <> "--help".
Proof.
  destruct i as [|o [|] arg|k [[[o [|]] arg]|]|s]; simpl; intros Hw;
    try discriminate;
    try (destruct o; discriminate);
    try (destruct k as [|k]; [destruct o|]; discriminate).
  - destruct k; discriminate.
  - apply andb_true_iff in Hw as [Hs _]. intros ->. discriminate.
Qed.

Lemma hd_items posix (items : list item) (tail : list string) :
  forallb (well_written posix) items = true ->
  hd "" tail <> "--help" ->
  hd "" (flat_map render items ++ tail) <> "--help".
Proof.
  destruct items as [|i items]; simpl; [auto|].
  intros Hw _. apply andb_true_iff in Hw as [Hi _].
  rewrite <- app_assoc. now apply (hd_item posix).
Qed.

Lemma not_help (a0 : string) (l : list string) :
  hd "" l <> "--help" -> ~ help_requested (a0 :: l).
Proof. intros Hh [_ Hn]. rewrite nth_1_hd in Hn. contradiction. Qed.

Lemma hd_ending posix (e : ending) :
  well_ended posix e = true -> hd "" (render_ending e) <> "--help".
Proof.
  destruct e as [|rest|s rest]; simpl; intros Hw; try discriminate.
  apply andb_true_iff in Hw as [Hs _]. intros ->. discriminate.
Qed.

Lemma hd_rejected (r : rejected) :
  really_rejected r = true -> hd "" (render_rejected r) <> "--help".
Proof.
  destruct r as [k c cs rest|k o|o|arg rest]; simpl; intros Hr.
  - destruct k; [|discriminate]. simpl. intros [= -> ->]. discriminate.
  - destruct k as [|k]; [destruct o|]; discriminate.
  - destruct o; discriminate.
  - discriminate.
Qed.

Section Main.

Variables BUILD_DATE BUILD_USER : string.
Variable POSIXLY_CORRECT : bool.

Abbreviation main := (MasterMain.main BUILD_DATE BUILD_USER POSIXLY_CORRECT).
Abbreviation scan := (MasterMain.scan POSIXLY_CORRECT).
Abbreviation starting := (MasterMain.starting BUILD_DATE BUILD_USER).

(** [main] writes the usage line and exits if the command line is [--help]
    alone; otherwise what it does is decided by the [switch] over what
    [getopt_long] returns. *)
Lemma main_unfold (argv : list string) :
  (help_requested argv /\
   main argv = Some (Exited 1 [usage (nth 0 argv "")])) \/
  (~ help_requested argv /\
   main argv =
   Some match dispatchAll (scan argv) initial with
        | Quit status => Exited status []
        | Astray => Undefined
        | Parsed v => Waiting (starting argv v)
        end).
Proof.
  unfold MasterMain.main, help_requested, MasterMain.scan, run.
  destruct (Nat.eqb_spec (length argv) 2) as [Hlen|Hlen]; cbn [andb].
  - destruct (String.eqb_spec "--help" (nth 1 argv "")) as [Hh|Hh].
    + left. split; [split; [assumption | symmetry; assumption] | reflexivity].
    + right. split; [intros [_ E]; congruence|].
      rewrite loop_dispatchAll by lia.
      now destruct (dispatchAll _ initial).
  - right. split; [tauto|].
    rewrite loop_dispatchAll by lia.
    now destruct (dispatchAll _ initial).
Qed.

Lemma scan_rendered (prog : string) (items : list item)
    (tail : list string) :
  forallb (well_written POSIXLY_CORRECT) items = true ->
  scan (prog :: flat_map render items ++ tail) =
  flat_map events items ++ runs POSIXLY_CORRECT (mkState tail "").
Proof. intros Hw. unfold MasterMain.scan, start. now apply run_items. Qed.

(** On options that are well written, and nothing behind them that
    [getopt_long] reads, [main] gets to the master, with the variables as
    the options leave them. *)
Lemma main_accepts (prog : string) (items : list item) (e : ending) :
  forallb (well_written POSIXLY_CORRECT) items = true ->
  well_ended POSIXLY_CORRECT e = true ->
  main (prog :: flat_map render items ++ render_ending e) =
  Some (Waiting (starting (prog :: flat_map render items ++ render_ending e)
                          (after items initial))).
Proof.
  intros Hw He.
  destruct (main_unfold (prog :: flat_map render items ++ render_ending e))
    as [[Hh _]|[_ ->]].
  - exfalso. revert Hh. apply not_help.
    apply (hd_items POSIXLY_CORRECT); [exact Hw|].
    now apply (hd_ending POSIXLY_CORRECT).
  - rewrite scan_rendered by exact Hw.
    rewrite (run_ending _ _ He), dispatchAll_items. reflexivity.
Qed.

(** An element that [getopt_long] rejects behind them makes [main] exit
    with 1, without a word of its own. *)
Lemma main_rejects (prog : string) (items : list item) (r : rejected) :
  forallb (well_written POSIXLY_CORRECT) items = true ->
  really_rejected r = true ->
  main (prog :: flat_map render items ++ render_rejected r) =
  Some (Exited 1 []).
Proof.
  intros Hw Hr.
  destruct (main_unfold (prog :: flat_map render items ++ render_rejected r))
    as [[Hh _]|[_ ->]].
  - exfalso. revert Hh. apply not_help.
    apply (hd_items POSIXLY_CORRECT); [exact Hw|].
    now apply hd_rejected.
  - rewrite scan_rendered by exact Hw.
    destruct (run_rejected POSIXLY_CORRECT r Hr) as (k & optarg & more & ->).
    rewrite dispatchAll_items, dispatchAll_quiets. reflexivity.
Qed.

(** A long option with a name that is none of the four sends
    [getopt_long] past the end of [options]. *)
Lemma main_astray (prog : string) (items : list item) (text : string)
    (rest : list string) :
  forallb (well_written POSIXLY_CORRECT) items = true ->
  text <> "" ->
  known_long_name (fst (split_equals text)) = false ->
  ~ help_requested
      (prog :: flat_map render items ++ String.append "--" text :: rest) ->
  main (prog :: flat_map render items ++ String.append "--" text :: rest) =
  Some Undefined.
Proof.
  intros Hw Ht Hn Hh.
  destruct (main_unfold
              (prog :: flat_map render items ++
               String.append "--" text :: rest))
    as [[Hh' _]|[_ ->]]; [contradiction|].
  rewrite scan_rendered by exact Hw.
  rewrite (run_unknown_long _ _ _ Ht Hn), dispatchAll_items. reflexivity.
Qed.

(** C4.  The claim gives every command line an exit status, 1 for an
    option that is not recognized.  [main] does not get that far when the
    option is a long one: [options] has no closing entry of zeros, so for
    every name that is none of [allocator], [port], [fault-tolerant] and
    [quiet], behind any well written options, [getopt_long] walks past the
    end of the array, and from there on C defines neither an exit status
    nor anything else. *)
Theorem main_unknown_long_option (prog : string) (items : list item)
    (text : string) (rest : list string) :
  forallb (well_written POSIXLY_CORRECT) items = true ->
  text <> "" ->
  known_long_name (fst (split_equals text)) = false ->
  ~ help_requested
      (prog :: flat_map render items ++ String.append "--" text :: rest) ->
  main (prog :: flat_map render items ++ String.append "--" text :: rest) =
    Some Undefined /\
  forall master_terminated,
    exit_status Undefined master_terminated = None.
Proof.
  intros Hw Ht Hn Hh. split; [now apply main_astray | reflexivity].
Qed.

(** C6.  On a command line of well written options, whatever follows a
    double dash (or, where operands end the scan, a first operand), the
    master is made fault tolerant exactly if the command line has a
    fault-tolerant option, and it is handed, unchanged, the argument of the
    last one; without such an option it is a local single master without
    locator.  If the options are followed by an element that [getopt_long]
    rejects, [main] exits with 1 and makes no master. *)
Theorem fault_tolerant_of_command_line (prog : string) (items : list item) :
  forallb (well_written POSIXLY_CORRECT) items = true ->
  (forall e, well_ended POSIXLY_CORRECT e = true ->
     exists s,
       main (prog :: flat_map render items ++ render_ending e) =
         Some (Waiting s) /\
       (master_isFT s = true <->
        values fault_tolerant_option items <> []) /\
       master_zkserver s =
         List.last (values fault_tolerant_option items) "" /\
       (values fault_tolerant_option items = [] ->
        master_isFT s = false /\ master_zkserver s = "")) /\
  (forall r, really_rejected r = true ->
     main (prog :: flat_map render items ++ render_rejected r) =
       Some (Exited 1 [])).
Proof.
  intros Hw. split.
  - intros e He. eexists. split; [now apply main_accepts|].
    cbn [master_isFT master_zkserver MasterMain.starting after isFT zkserver
         initial orb].
    rewrite latest_last. split; [apply given_not_nil|].
    split; [reflexivity|]. now intros ->.
  - intros r Hr. now apply main_rejects.
Qed.

(** C7.  On a command line of well written options, whatever follows a
    double dash (or, where operands end the scan, a first operand), [main]
    turns on logging to stderr from INFO up exactly if none of the options
    is the quiet one, long or as the letter q; with a quiet option it leaves
    logging to stderr as it is.  If the options are followed by an element
    that [getopt_long] rejects, [main] exits with 1 before it comes to
    logging. *)
Theorem info_logging_of_command_line (prog : string) (items : list item) :
  forallb (well_written POSIXLY_CORRECT) items = true ->
  (forall e, well_ended POSIXLY_CORRECT e = true ->
     exists s,
       main (prog :: flat_map render items ++ render_ending e) =
         Some (Waiting s) /\
       (stderr_logging s = Some Slave.INFO <->
        existsb quiets items = false) /\
       (existsb quiets items = true -> stderr_logging s = None)) /\
  (forall r, really_rejected r = true ->
     main (prog :: flat_map render items ++ render_rejected r) =
       Some (Exited 1 [])).
Proof.
  intros Hw. split.
  - intros e He. eexists. split; [now apply main_accepts|].
    cbn [stderr_logging MasterMain.starting after quiet initial orb].
    destruct (existsb quiets items); simpl; split; try split;
      congruence.
  - intros r Hr. now apply main_rejects.
Qed.

End Main.

Lemma main_unknown_long_option_witness :
  MasterMain.main "20101020" "builder" false unknown_long = Some Undefined /\
  forall master_terminated,
    exit_status Undefined master_terminated = None.
Proof.
  refine (main_unknown_long_option "20101020" "builder" false
            "nexus-master" [] "--help" [] _ _ _ _).
  - reflexivity.
  - discriminate.
  - reflexivity.
  - intros [_ Hh]. discriminate.
Defined.

Lemma fault_tolerant_of_command_line_witness :
  forallb (well_written false) configured_items = true /\
  exists s,
    MasterMain.main "20101020" "builder" false
      ("nexus-master" :: flat_map render configured_items ++
       render_ending (DoubleDash ["--quiet"])) = Some (Waiting s) /\
    master_isFT s = true /\ master_zkserver s = "zoo1:2181".
Proof.
  assert (Hw : forallb (well_written false) configured_items = true)
    by reflexivity.
  split; [exact Hw|].
  destruct (proj1 (fault_tolerant_of_command_line
                     "20101020" "builder" false "nexus-master"
                     configured_items Hw)
                  (DoubleDash ["--quiet"]) eq_refl)
    as (s & Hm & Hft & Hzk & _).
  exists s. split; [exact Hm|]. split; [|exact Hzk].
  apply Hft. discriminate.
Defined.

(** The claim holds of every command line; this one has the
    fault-tolerant option with its locator, and no master is made, fault
    tolerant or not: the letter behind it is no option, and [main] exits. *)
Lemma fault_tolerant_rejected_line_counterexample :
  locator_then_unknown =
    ["nexus-master"; "--fault-tolerant"; "zoo1:2181"; "-x"] /\
  forall posixly_correct,
    MasterMain.main "20101020" "builder" posixly_correct
      locator_then_unknown = Some (Exited 1 []) /\
    ~ exists s,
        MasterMain.main "20101020" "builder" posixly_correct
          locator_then_unknown = Some (Waiting s) /\
        master_isFT s = true.
Proof.
  split; [reflexivity|].
  intros posixly_correct.
  assert (Hm : MasterMain.main "20101020" "builder" posixly_correct
                 locator_then_unknown = Some (Exited 1 []))
    by (destruct posixly_correct; vm_compute; reflexivity).
  split; [exact Hm|]. intros (s & Hs & _). congruence.
Qed.

Lemma info_logging_of_command_line_witness :
  forallb (well_written true) quiet_items = true /\
  exists s,
    MasterMain.main "20101020" "builder" true
      ("nexus-master" :: flat_map render quiet_items ++
       render_ending (FirstOperand "operand" ["-x"])) = Some (Waiting s) /\
    stderr_logging s = None.
Proof.
  assert (Hw : forallb (well_written true) quiet_items = true)
    by reflexivity.
  split; [exact Hw|].
  destruct (proj1 (info_logging_of_command_line
                     "20101020" "builder" true "nexus-master"
                     quiet_items Hw)
                  (FirstOperand "operand" ["-x"]) eq_refl)
    as (s & Hm & _ & Hq).
  exists s. split; [exact Hm|]. apply Hq. reflexivity.
Defined.

(** The claim holds of every command line; this one has no quiet option,
    and logging to stderr is not turned on: the letter is no option, and
    [main] exits before it comes to logging. *)
Lemma info_logging_rejected_line_counterexample :
  unknown_letter = ["nexus-master"; "-x"] /\
  forall posixly_correct,
    MasterMain.main "20101020" "builder" posixly_correct unknown_letter =
      Some (Exited 1 []) /\
    ~ exists s,
        MasterMain.main "20101020" "builder" posixly_correct
          unknown_letter = Some (Waiting s) /\
        stderr_logging s = Some Slave.INFO.
Proof.
  split; [reflexivity|].
  intros posixly_correct.
  assert (Hm : MasterMain.main "20101020" "builder" posixly_correct
                 unknown_letter = Some (Exited 1 []))
    by (destruct posixly_correct; vm_compute; reflexivity).
  split; [exact Hm|]. intros (s & Hs & _). congruence.
Qed.

End MasterMainFacts.

(* ===================================================================== *)
(** * Part III: further properties of the same code                       *)
(* ===================================================================== *)

(** ** pid.hpp *)

Module UPIDMore.
Import UPID UPIDFacts.

Lemma fields_eq (a b : t) :
  id a = id b -> ip a = ip b -> port a = port b -> a = b.
Proof. destruct a, b; simpl; intros; subst; reflexivity. Qed.

Lemma eq_values (m : store) (p q : addr) : eq m p q = true <-> m p = m q.
Proof.
  rewrite eq_fields. split.
  - intros (Hid & Hip & Hpo). now apply fields_eq.
  - intros ->. auto.
Qed.

Lemma lt_values (m : store) (a b c : addr) :
  m a = m b -> lt m a c = lt m b c /\ lt m c a = lt m c b.
Proof.
  intros Hab.
  assert (Hirr : forall x y, m x = m y -> ~ lex_lt (m x) (m y)).
  { intros x y E. apply lex_lt_irrefl; now rewrite E. }
  split; apply eq_true_iff_eq; rewrite !lt_lex.
  - split; intros [N L]; split.
    + intros E. apply (Hirr a c); [congruence | exact L].
    + rewrite <- Hab. exact L.
    + intros E. apply (Hirr b c); [congruence | exact L].
    + rewrite Hab. exact L.
  - split; intros [N L]; split.
    + intros E. apply (Hirr c a); [congruence | exact L].
    + rewrite <- Hab. exact L.
    + intros E. apply (Hirr c b); [congruence | exact L].
    + rewrite Hab. exact L.
Qed.

(** X1.  [operator==] is an equivalence relation on UPIDs, and [operator<]
    cannot tell equal UPIDs apart: replacing either operand by an equal one
    does not change its result. *)
Theorem UPID_eq_equivalence_lt_congruence (m : store) :
  (forall a, eq m a a = true) /\
  (forall a b, eq m a b = true -> eq m b a = true) /\
  (forall a b c, eq m a b = true -> eq m b c = true -> eq m a c = true) /\
  (forall a b c, eq m a b = true ->
     lt m a c = lt m b c /\ lt m c a = lt m c b).
Proof.
  split; [|split; [|split]].
  - intros a. now apply eq_values.
  - intros a b. rewrite !eq_values. auto.
  - intros a b c. rewrite !eq_values. congruence.
  - intros a b c Hab. apply lt_values. now apply eq_values.
Qed.

Lemma UPID_eq_equivalence_lt_congruence_witness :
  eq sample_store 3%positive 4%positive = true /\
  eq sample_store 4%positive 3%positive = true /\
  lt sample_store 1%positive 3%positive =
  lt sample_store 1%positive 4%positive.
Proof.
  assert (He : eq sample_store 3%positive 4%positive = true) by reflexivity.
  pose proof (UPID_eq_equivalence_lt_congruence sample_store)
    as (_ & Hsym & _ & Hcong).
  split; [exact He|]. split; [exact (Hsym _ _ He)|].
  exact (proj2 (Hcong 3%positive 4%positive 1%positive He)).
Defined.

(** X2.  [!pid] holds exactly when [pid] equals a default-constructed UPID:
    for any object [q] that holds [UPID()], [!p] and [p == q] agree. *)
Theorem UPID_not_is_eq_default (m : store) (p q : addr) :
  m q = default -> is_null m p = eq m p q.
Proof.
  intros Hq. unfold is_null, eq. rewrite Hq. simpl.
  destruct (Pos.eqb_spec p q) as [->|N]; simpl; [|reflexivity].
  rewrite Hq. reflexivity.
Qed.

Lemma UPID_not_is_eq_default_witness :
  null_store 2%positive = default /\
  is_null null_store 1%positive = eq null_store 1%positive 2%positive /\
  is_null null_store 3%positive = eq null_store 3%positive 2%positive.
Proof.
  assert (Hd : null_store 2%positive = default) by reflexivity.
  split; [exact Hd|]. split.
  - exact (UPID_not_is_eq_default null_store 1%positive 2%positive Hd).
  - exact (UPID_not_is_eq_default null_store 3%positive 2%positive Hd).
Defined.

End UPIDMore.

(** ** slave.hpp: more on [Framework] *)

Module FrameworkMore.
Import Slave FrameworkFacts.

Section WithTypes.

Context {TaskID FrameworkID ExecutorInfo Params Resources : Type}.
Context `{Countable TaskID} `{ResourcesOps Resources}.

Abbreviation Task := (@Task TaskID FrameworkID Resources).
Abbreviation TaskDescription := (@TaskDescription TaskID Params).
Abbreviation Framework :=
  (@Framework TaskID FrameworkID ExecutorInfo Params Resources _ _).
Abbreviation call := (@call TaskID Resources).

Lemma framework_eq (fw1 fw2 : Framework) :
  fw_id fw1 = fw_id fw2 -> fw_name fw1 = fw_name fw2 ->
  fw_user fw1 = fw_user fw2 -> fw_executorInfo fw1 = fw_executorInfo fw2 ->
  fw_queuedTasks fw1 = fw_queuedTasks fw2 -> fw_tasks fw1 = fw_tasks fw2 ->
  fw_resources fw1 = fw_resources fw2 ->
  fw_executorStatus fw1 = fw_executorStatus fw2 -> fw1 = fw2.
Proof. destruct fw1, fw2; simpl; intros; subst; reflexivity. Qed.

Lemma eraseQueued_absent (tid : TaskID) (q : list TaskDescription) :
  (forall d, d ∈ q -> td_tid d <> tid) -> eraseQueued tid q = q.
Proof.
  induction q as [|d q IH]; intros Hall; simpl; [reflexivity|].
  destruct (decide (td_tid d = tid)) as [E|N].
  - exfalso. apply (Hall d); [left|exact E].
  - f_equal. apply IH. intros e He. apply Hall. now right.
Qed.

Lemma eraseQueued_comm (t1 t2 : TaskID) (q : list TaskDescription) :
  eraseQueued t1 (eraseQueued t2 q) = eraseQueued t2 (eraseQueued t1 q).
Proof.
  induction q as [|d q IH]; simpl; [reflexivity|].
  destruct (decide (td_tid d = t2)) as [E2|N2];
    destruct (decide (td_tid d = t1)) as [E1|N1]; simpl.
  - congruence.
  - rewrite decide_True by exact E2. reflexivity.
  - rewrite decide_True by exact E1. reflexivity.
  - rewrite decide_False by exact N1. rewrite decide_False by exact N2.
    now rewrite IH.
Qed.

Lemma eraseQueued_sublist (tid : TaskID) (q : list TaskDescription) :
  sublist (eraseQueued tid q) q.
Proof.
  induction q as [|d q IH]; simpl; [constructor|].
  destruct (decide (td_tid d = tid)).
  - apply sublist_cons. reflexivity.
  - now apply sublist_skip.
Qed.

(** X3.  A successful [addTask] was given an id that was not in the task
    map, makes the map one entry larger, and leaves everything else alone:
    the entries of all other ids, the queue and the remaining fields. *)
Theorem addTask_frame (fw fw' : Framework) tid name res (task : Task) :
  addTask fw tid name res = Ok (task, fw') ->
  lookupTask fw tid = None /\
  (forall tid', tid' <> tid -> lookupTask fw' tid' = lookupTask fw tid') /\
  size (fw_tasks fw') = S (size (fw_tasks fw)) /\
  fw_queuedTasks fw' = fw_queuedTasks fw /\
  fw_id fw' = fw_id fw /\ fw_name fw' = fw_name fw /\
  fw_user fw' = fw_user fw /\ fw_executorInfo fw' = fw_executorInfo fw /\
  fw_executorStatus fw' = fw_executorStatus fw.
Proof.
  unfold addTask, lookupTask.
  destruct (fw_tasks fw !! tid) eqn:E; [discriminate|].
  intros [= <- <-]. simpl. split; [reflexivity|]. split.
  - intros tid' N. apply lookup_insert_ne. congruence.
  - split; [now apply map_size_insert_None|]. repeat split.
Qed.

(** X5.  A second [removeTask] of the same id finds nothing in the task map:
    the map and the resources stay as the first call left them, so nothing
    is subtracted twice; only the queue can change again, and it does not
    if no description with that id is left in it. *)
Theorem removeTask_again (fw : Framework) (tid : TaskID) :
  fw_tasks (removeTask (removeTask fw tid) tid) =
    fw_tasks (removeTask fw tid) /\
  fw_resources (removeTask (removeTask fw tid) tid) =
    fw_resources (removeTask fw tid) /\
  ((forall d, d ∈ fw_queuedTasks (removeTask fw tid) -> td_tid d <> tid) ->
   removeTask (removeTask fw tid) tid = removeTask fw tid).
Proof.
  assert (Hgone : fw_tasks (removeTask fw tid) !! tid = None).
  { unfold removeTask. destruct (fw_tasks fw !! tid) eqn:E; simpl;
      [apply lookup_delete_eq | exact E]. }
  set (fw1 := removeTask fw tid) in *.
  unfold removeTask. rewrite Hgone. simpl.
  split; [reflexivity|]. split; [reflexivity|].
  intros Hq. apply framework_eq; simpl; try reflexivity.
  now apply eraseQueued_absent.
Qed.

(** X9.  An id that [addTask] has just filed cannot be filed again: any
    further [addTask] with it aborts, whatever name and resources it
    brings.  After [removeTask] the id is free again, and [addTask] with
    it does not abort. *)
Theorem addTask_again (fw : Framework) (tid : TaskID) :
  (forall name res task fw',
      addTask fw tid name res = Ok (task, fw') ->
      forall name' res',
        addTask fw' tid name' res' =
        Aborted [Str "Task ID "; OfTaskID tid;
                 Str "already exists in framework "; OfFrameworkID (fw_id fw)]) /\
  (forall name res, exists task fw',
      addTask (removeTask fw tid) tid name res = Ok (task, fw')).
Proof.
  split.
  - intros name res task fw' Hadd name' res'.
    destruct (addTask_frame _ _ _ _ _ _ Hadd) as (_ & _ & _ & _ & Hid & _).
    rewrite <- Hid. apply addTask_present with (task := task).
    revert Hadd. unfold addTask.
    destruct (fw_tasks fw !! tid); [discriminate|].
    intros [= <- <-]. simpl. apply lookup_insert_eq.
  - intros name res.
    destruct (addTask_absent (removeTask fw tid) tid name res)
      as (task & fw' & Hadd & _); [|eauto].
    unfold removeTask. destruct (fw_tasks fw !! tid) eqn:E; simpl;
      [apply lookup_delete_eq | exact E].
Qed.

Lemma wellFiled_perform (fw fw' : Framework) (c : call) :
  wellFiled fw -> perform fw c = Ok fw' ->
  wellFiled fw' /\ fw_id fw' = fw_id fw.
Proof.
  intros Hwf. destruct c as [tid name res|tid]; simpl.
  - unfold addTask. destruct (fw_tasks fw !! tid) eqn:E; [discriminate|].
    simpl. intros [= <-]. split; [|reflexivity].
    intros tid' task'. simpl. destruct (decide (tid = tid')) as [<-|N].
    + rewrite lookup_insert_eq. intros [= <-]. simpl. auto.
    + rewrite lookup_insert_ne by exact N. apply Hwf.
  - intros [= <-]. unfold removeTask.
    destruct (fw_tasks fw !! tid) eqn:E; simpl; (split; [|reflexivity]);
      intros tid' task'; simpl; [|apply Hwf].
    destruct (decide (tid = tid')) as [<-|N].
    + rewrite lookup_delete_eq. discriminate.
    + rewrite lookup_delete_ne by exact N. apply Hwf.
Qed.

(** X7.  Whatever calls have been made on a freshly constructed framework,
    every task in its task map is filed under its own id, carries the id
    of the framework, is in state TASK_STARTING and has an empty
    message. *)
Theorem tasks_wellFiled (cs : list call) id name user info (fw : Framework) :
  performAll cs (newFramework id name user info) = Ok fw ->
  wellFiled fw.
Proof.
  assert (Hgen : forall (cs : list call) (fw0 fw1 : Framework),
             wellFiled fw0 -> performAll cs fw0 = Ok fw1 -> wellFiled fw1).
  { clear. intros cs. induction cs as [|c cs IH]; intros fw0 fw1 Hwf; simpl.
    - now intros [= <-].
    - destruct (perform fw0 c) as [fw2|d] eqn:E; simpl; [|discriminate].
      apply IH. eapply wellFiled_perform; eassumption. }
  apply Hgen. intros tid task. simpl. rewrite lookup_empty. discriminate.
Qed.

(** X8.  No sequence of [addTask] and [removeTask] calls touches the id,
    name, user, executor info or executor status of the framework, and
    none puts anything into the queue: what is queued afterwards was
    queued before, in the same order. *)
Theorem performAll_frame (cs : list call) :
  forall fw fw' : Framework,
    performAll cs fw = Ok fw' ->
    fw_id fw' = fw_id fw /\ fw_name fw' = fw_name fw /\
    fw_user fw' = fw_user fw /\ fw_executorInfo fw' = fw_executorInfo fw /\
    fw_executorStatus fw' = fw_executorStatus fw /\
    sublist (fw_queuedTasks fw') (fw_queuedTasks fw).
Proof.
  induction cs as [|c cs IH]; intros fw fw'; simpl.
  - intros [= <-]. repeat split; reflexivity.
  - destruct (perform fw c) as [fw1|d] eqn:E; simpl; [|discriminate].
    intros Hrun. destruct (IH _ _ Hrun) as (-> & -> & -> & -> & -> & Hq).
    destruct c as [tid name res|tid]; simpl in E.
    + destruct (addTask fw tid name res) as [[task fw2]|d] eqn:Ea;
        simpl in E; [|discriminate].
      injection E as <-.
      destruct (addTask_frame _ _ _ _ _ _ Ea)
        as (_ & _ & _ & Hq' & -> & -> & -> & -> & ->).
      rewrite <- Hq'. repeat split; try reflexivity. exact Hq.
    + injection E as <-. unfold removeTask in *.
      destruct (fw_tasks fw !! tid); simpl in *;
        (repeat split; try reflexivity);
        (etransitivity; [exact Hq | apply eraseQueued_sublist]).
Qed.

Lemma dom_lookup_None (m : gmap TaskID Task) tid :
  m !! tid = None -> tid ∉ dom m.
Proof. apply not_elem_of_dom_2. Qed.

(** X10.  Which ids are in the task map after a sequence of calls, and
    whether the sequence aborts, depends only on the ids that were in the
    map and on the calls: [performAll] follows [idsAfter] on the key set of
    the map. *)
Theorem performAll_ids (cs : list call) :
  forall fw : Framework,
    (forall fw', performAll cs fw = Ok fw' ->
       idsAfter (dom (fw_tasks fw)) cs = Some (dom (fw_tasks fw'))) /\
    (forall d, performAll cs fw = Aborted d ->
       idsAfter (dom (fw_tasks fw)) cs = None).
Proof.
  induction cs as [|c cs IH]; intros fw; simpl.
  - split; [now intros fw' [= <-] | discriminate].
  - destruct c as [tid name res|tid]; simpl.
    + unfold addTask. destruct (fw_tasks fw !! tid) as [old|] eqn:E; simpl.
      * rewrite decide_True by (apply elem_of_dom; eauto).
        split; [discriminate | reflexivity].
      * rewrite decide_False by (now apply not_elem_of_dom_2).
        match goal with
        | |- context [performAll cs ?f] => pose proof (IH f) as IH'
        end.
        simpl in IH'. rewrite dom_insert_L in IH'. exact IH'.
    + unfold removeTask. destruct (fw_tasks fw !! tid) as [old|] eqn:E; simpl.
      * match goal with
        | |- context [performAll cs ?f] => pose proof (IH f) as IH'
        end.
        simpl in IH'. rewrite dom_delete_L in IH'. exact IH'.
      * match goal with
        | |- context [performAll cs ?f] => pose proof (IH f) as IH'
        end.
        simpl in IH'.
        replace (dom (fw_tasks fw) ∖ {[tid]}) with (dom (fw_tasks fw));
          [exact IH'|].
        apply not_elem_of_dom_2 in E. apply set_eq. intros x.
        rewrite elem_of_difference, elem_of_singleton. split.
        -- intros Hx. split; [exact Hx|]. intros ->. contradiction.
        -- tauto.
Qed.

Section Accounting.

Context `{!ResourcesLaws Resources}.

(** X4.  [removeTask] undoes [addTask]: after adding a task and removing
    it again the task map and the resources are what they were, and if no
    description with that id was waiting in the queue, so is the whole
    framework. *)
Theorem addTask_removeTask (fw fw' : Framework) tid name res (task : Task) :
  addTask fw tid name res = Ok (task, fw') ->
  fw_tasks (removeTask fw' tid) = fw_tasks fw /\
  fw_resources (removeTask fw' tid) = fw_resources fw /\
  ((forall d, d ∈ fw_queuedTasks fw -> td_tid d <> tid) ->
   removeTask fw' tid = fw).
Proof.
  unfold addTask. destruct (fw_tasks fw !! tid) eqn:E; [discriminate|].
  intros [= <- <-]. unfold removeTask. simpl.
  rewrite lookup_insert_eq. simpl.
  rewrite (delete_insert_id _ _ _ E), res_add_sub.
  split; [reflexivity|]. split; [reflexivity|].
  intros Hq. apply framework_eq; simpl; try reflexivity.
  now apply eraseQueued_absent.
Qed.

(** X6.  On a framework whose resources are the sum over its task map,
    removing two tasks gives the same framework in either order. *)
Theorem removeTask_comm (fw : Framework) (t1 t2 : TaskID) :
  accounted fw ->
  removeTask (removeTask fw t1) t2 = removeTask (removeTask fw t2) t1.
Proof.
  intros Hacc. destruct (decide (t1 = t2)) as [->|N]; [reflexivity|].
  pose proof (accounted_removeTask (removeTask fw t1) t2
                (accounted_removeTask fw t1 Hacc)) as H12.
  pose proof (accounted_removeTask (removeTask fw t2) t1
                (accounted_removeTask fw t2 Hacc)) as H21.
  assert (Ht : fw_tasks (removeTask (removeTask fw t1) t2) =
               fw_tasks (removeTask (removeTask fw t2) t1)).
  { unfold removeTask.
    destruct (fw_tasks fw !! t1) as [a|] eqn:E1;
      destruct (fw_tasks fw !! t2) as [b|] eqn:E2; simpl;
      rewrite ?lookup_delete_ne by congruence;
      rewrite ?E1, ?E2; simpl; try reflexivity.
    apply delete_delete. }
  apply framework_eq.
  - unfold removeTask. repeat (destruct (_ !! _); simpl); reflexivity.
  - unfold removeTask. repeat (destruct (_ !! _); simpl); reflexivity.
  - unfold removeTask. repeat (destruct (_ !! _); simpl); reflexivity.
  - unfold removeTask. repeat (destruct (_ !! _); simpl); reflexivity.
  - transitivity (eraseQueued t2 (eraseQueued t1 (fw_queuedTasks fw))).
    + unfold removeTask. repeat (destruct (_ !! _); simpl); reflexivity.
    + rewrite eraseQueued_comm.
      unfold removeTask. repeat (destruct (_ !! _); simpl); reflexivity.
  - exact Ht.
  - unfold accounted in H12, H21. rewrite H12, H21, Ht. reflexivity.
  - unfold removeTask. repeat (destruct (_ !! _); simpl); reflexivity.
Qed.

End Accounting.

End WithTypes.

Lemma sample_add :
  addTask Sample.framework0 "T1" "map" Sample.map_res =
  Ok (Sample.task1, Sample.framework1).
Proof. vm_compute. reflexivity. Defined.

Lemma sample_run :
  performAll Sample.calls Sample.framework0 = Ok Sample.framework3.
Proof. vm_compute. reflexivity. Defined.

Lemma addTask_frame_witness :
  addTask Sample.framework0 "T1" "map" Sample.map_res =
    Ok (Sample.task1, Sample.framework1) /\
  lookupTask Sample.framework0 "T1" = None /\
  size (fw_tasks Sample.framework1) = S (size (fw_tasks Sample.framework0)).
Proof.
  split; [exact sample_add|].
  pose proof (addTask_frame _ _ _ _ _ _ sample_add) as (Hn & _ & Hs & _).
  split; [exact Hn | exact Hs].
Defined.

Lemma addTask_removeTask_witness :
  addTask Sample.framework0 "T1" "map" Sample.map_res =
    Ok (Sample.task1, Sample.framework1) /\
  removeTask Sample.framework1 "T1" = Sample.framework0.
Proof.
  split; [exact sample_add|].
  refine (proj2 (proj2 (addTask_removeTask (ResourcesLaws0 := CpuMemFacts.laws)
                          _ _ _ _ _ _ sample_add)) _).
  intros d Hd. simpl in Hd. inversion Hd.
Defined.

Lemma removeTask_again_witness :
  fw_queuedTasks (removeTask Sample.framework1 "T1") = [] /\
  removeTask (removeTask Sample.framework1 "T1") "T1" =
  removeTask Sample.framework1 "T1".
Proof.
  assert (Hq : fw_queuedTasks (removeTask Sample.framework1 "T1") = [])
    by (vm_compute; reflexivity).
  split; [exact Hq|].
  refine (proj2 (proj2 (removeTask_again Sample.framework1 "T1")) _).
  intros d Hd. rewrite Hq in Hd. inversion Hd.
Defined.

Lemma removeTask_comm_witness :
  accounted Sample.framework2 /\
  removeTask (removeTask Sample.framework2 "T1") "T2" =
  removeTask (removeTask Sample.framework2 "T2") "T1".
Proof.
  assert (Hacc : accounted Sample.framework2) by (vm_compute; reflexivity).
  split; [exact Hacc|].
  exact (removeTask_comm (ResourcesLaws0 := CpuMemFacts.laws)
           Sample.framework2 "T1" "T2" Hacc).
Defined.

Lemma tasks_wellFiled_witness :
  performAll Sample.calls Sample.framework0 = Ok Sample.framework3 /\
  wellFiled Sample.framework3.
Proof.
  split; [exact sample_run|].
  exact (tasks_wellFiled Sample.calls _ _ _ _ Sample.framework3 sample_run).
Defined.

Lemma performAll_frame_witness :
  performAll Sample.calls Sample.framework0 = Ok Sample.framework3 /\
  fw_id Sample.framework3 = fw_id Sample.framework0 /\
  sublist (fw_queuedTasks Sample.framework3)
          (fw_queuedTasks Sample.framework0).
Proof.
  split; [exact sample_run|].
  pose proof (performAll_frame Sample.calls _ _ sample_run)
    as (Hid & _ & _ & _ & _ & Hq).
  split; [exact Hid | exact Hq].
Defined.

Lemma addTask_again_witness :
  addTask Sample.framework0 "T1" "map" Sample.map_res =
    Ok (Sample.task1, Sample.framework1) /\
  addTask Sample.framework1 "T1" "reduce" Sample.reduce_res =
  Aborted [Str "Task ID "; OfTaskID "T1";
           Str "already exists in framework ";
           OfFrameworkID (fw_id Sample.framework0)].
Proof.
  split; [exact sample_add|].
  exact (proj1 (addTask_again Sample.framework0 "T1") _ _ _ _ sample_add
           "reduce" Sample.reduce_res).
Defined.

Lemma performAll_ids_witness :
  performAll Sample.calls Sample.framework0 = Ok Sample.framework3 /\
  idsAfter (dom (fw_tasks Sample.framework0)) Sample.calls =
  Some (dom (fw_tasks Sample.framework3)).
Proof.
  split; [exact sample_run|].
  exact (proj1 (performAll_ids Sample.calls Sample.framework0) _ sample_run).
Defined.

End FrameworkMore.

(** ** slave.hpp: more on the leader listener *)

Module ListenerMore.
Import Slave ListenerFacts.

Section WithTypes.

Context {TaskID FrameworkID SlaveID ExecutorInfo Params Resources : Type}.
Context `{Countable TaskID} `{Countable FrameworkID}.

Abbreviation World :=
  (@World TaskID FrameworkID SlaveID ExecutorInfo Params Resources _ _ _ _).

(** X11.  The listener writes one member of the slave, [zkserver], and no
    other: after any sequence of election events the slave's [master],
    its id, resources, frameworks, executors and the remaining members are
    what they were. *)
Theorem deliver_writes_zkserver_only (pp : UPID.t)
    (events : list (string * string)) (w : World) :
  slave_isFT (parent (deliver pp events w)) = slave_isFT (parent w) /\
  slave_master (parent (deliver pp events w)) = slave_master (parent w) /\
  slave_id (parent (deliver pp events w)) = slave_id (parent w) /\
  slave_resources (parent (deliver pp events w)) =
    slave_resources (parent w) /\
  slave_local (parent (deliver pp events w)) = slave_local (parent w) /\
  slave_frameworks (parent (deliver pp events w)) =
    slave_frameworks (parent w) /\
  slave_executors (parent (deliver pp events w)) =
    slave_executors (parent w) /\
  slave_isolationType (parent (deliver pp events w)) =
    slave_isolationType (parent w).
Proof.
  revert w. induction events as [|e events IH]; intros w.
  - repeat split.
  - rewrite deliver_cons.
    destruct (IH (newLeaderElected pp w (fst e) (snd e)))
      as (-> & -> & -> & -> & -> & -> & -> & ->).
    unfold newLeaderElected. destruct (negb _); repeat split.
Qed.

(** X12.  The listener only ever appends: what was sent and logged before
    stays in place.  Every message it adds is addressed to [parentPID],
    every line it adds is of severity INFO, and there are two lines for
    each message. *)
Theorem deliver_appends (pp : UPID.t) (events : list (string * string))
    (w : World) :
  exists msgs lines,
    sent (deliver pp events w) = sent w ++ msgs /\
    logged (deliver pp events w) = logged w ++ lines /\
    Forall (fun m => fst m = pp) msgs /\
    Forall (fun l => fst l = INFO) lines /\
    length lines = (2 * length msgs)%nat /\
    length msgs = length (named events).
Proof.
  revert w. induction events as [|e events IH]; intros w.
  - exists [], []. simpl. rewrite !app_nil_r. repeat split; constructor.
  - rewrite deliver_cons.
    destruct (IH (newLeaderElected pp w (fst e) (snd e)))
      as (msgs & lines & -> & -> & Hm & Hl & Hlen & Hn).
    unfold newLeaderElected, named. simpl.
    destruct (String.eqb (fst e) ""); simpl.
    + exists msgs, lines. repeat split; assumption.
    + eexists (_ :: msgs), (_ :: _ :: lines).
      rewrite <- !app_assoc. simpl.
      split; [reflexivity|]. split; [reflexivity|].
      split; [constructor; [reflexivity | exact Hm]|].
      split; [repeat constructor; exact Hl|].
      split; [rewrite Hlen; lia|].
      now rewrite Hn.
Qed.

End WithTypes.

End ListenerMore.

(** ** master_main.cpp: more on [main] *)

Module MasterMainMore.
Import Getopt MasterMain GetoptFacts MasterMainFacts.

Lemma not_help_longer (a0 a1 a2 : string) (rest : list string) :
  ~ help_requested (a0 :: a1 :: a2 :: rest).
Proof. intros [Hlen _]. discriminate. Qed.

Lemma not_help_other (a0 a1 : string) (rest : list string) :
  a1 <> "--help" -> ~ help_requested (a0 :: a1 :: rest).
Proof. intros N [_ Hh]. simpl in Hh. contradiction. Qed.


Section Main.

Variables BUILD_DATE BUILD_USER : string.
Variable POSIXLY_CORRECT : bool.

Abbreviation main := (MasterMain.main BUILD_DATE BUILD_USER POSIXLY_CORRECT).
Abbreviation scan := (MasterMain.scan POSIXLY_CORRECT).
Abbreviation configuration_error :=
  (MasterMain.configuration_error POSIXLY_CORRECT).

Lemma main_same_scan (argv1 argv2 : list string) :
  ~ help_requested argv1 -> ~ help_requested argv2 ->
  nth 0 argv1 "" = nth 0 argv2 "" ->
  scan argv1 = scan argv2 ->
  main argv1 = main argv2.
Proof.
  intros H1 H2 Hname Hscan.
  destruct (main_unfold BUILD_DATE BUILD_USER POSIXLY_CORRECT argv1)
    as [[Hh _]|[_ ->]]; [contradiction|].
  destruct (main_unfold BUILD_DATE BUILD_USER POSIXLY_CORRECT argv2)
    as [[Hh _]|[_ ->]]; [contradiction|].
  rewrite Hscan. unfold starting. now rewrite Hname.
Qed.


(** X13.  On a command line of well written options [main] gets to
    [Process::wait], and returns 0 once the master has terminated; if the
    options are followed by an element that [getopt_long] rejects, the exit
    status is 1.  Whatever the command line, a status that [main] produces
    is 0 or 1, never 2. *)
Theorem main_exit_status_classified (prog : string) (items : list item) :
  forallb (well_written POSIXLY_CORRECT) items = true ->
  (forall e, well_ended POSIXLY_CORRECT e = true ->
     exists s,
       main (prog :: flat_map render items ++ render_ending e) =
         Some (Waiting s) /\
       exit_status (Waiting s) true = Some 0 /\
       exit_status (Waiting s) false = None) /\
  (forall r, really_rejected r = true ->
     exists o,
       main (prog :: flat_map render items ++ render_rejected r) = Some o /\
       forall master_terminated,
         exit_status o master_terminated = Some 1) /\
  (forall argv o master_terminated status,
     main argv = Some o ->
     exit_status o master_terminated = Some status ->
     status = 0 \/ status = 1).
Proof.
  intros Hw. split; [|split].
  - intros e He. eexists. split; [now apply main_accepts|]. split; reflexivity.
  - intros r Hr. eexists. split; [now apply main_rejects|]. reflexivity.
  - intros argv o t status.
    destruct (main_unfold BUILD_DATE BUILD_USER POSIXLY_CORRECT argv)
      as [[_ ->]|[_ ->]].
    + intros [= <-] [= <-]. now right.
    + destruct (dispatchAll (scan argv) initial) as [v|st|] eqn:E;
        intros [= <-]; simpl.
      * destruct t; [intros [= <-]; now left | discriminate].
      * apply dispatchAll_status in E as [-> _]. intros [= <-]. now right.
      * discriminate.
Qed.

(** X14.  On a command line of well written options the allocator handed
    to the master is the argument of the last allocator option, and
    "simple" if there is none. *)
Theorem main_allocator_of_command_line (prog : string) (items : list item)
    (e : ending) :
  forallb (well_written POSIXLY_CORRECT) items = true ->
  well_ended POSIXLY_CORRECT e = true ->
  exists s,
    main (prog :: flat_map render items ++ render_ending e) =
      Some (Waiting s) /\
    master_allocator s = List.last (values allocator_option items) "simple".
Proof.
  intros Hw He. eexists. split; [now apply main_accepts|].
  cbn [master_allocator MasterMain.starting after allocator initial].
  apply latest_last.
Qed.

(** X15.  On a command line of well written options [main] has set
    LIBPROCESS_PORT, when it spawns the master, to the argument of the last
    port option, and has not touched it if there is none. *)
Theorem main_port_of_command_line (prog : string) (items : list item)
    (e : ending) :
  forallb (well_written POSIXLY_CORRECT) items = true ->
  well_ended POSIXLY_CORRECT e = true ->
  exists s,
    main (prog :: flat_map render items ++ render_ending e) =
      Some (Waiting s) /\
    port_variable s =
      List.last (List.map Some (values port_option items)) None /\
    (values port_option items = [] -> port_variable s = None).
Proof.
  intros Hw He. eexists. split; [now apply main_accepts|].
  cbn [port_variable MasterMain.starting after LIBPROCESS_PORT initial].
  split; [apply latest_last | now intros ->].
Qed.

(** X16.  [main] writes its usage line only when [--help] is the one and
    only argument.  Whenever else it exits, it has written nothing itself,
    and the command line has an option [getopt_long] rejects. *)
Theorem main_usage (argv : list string) (status : Z) (cerr : list string) :
  main argv = Some (Exited status cerr) ->
  (help_requested argv /\ cerr = [usage (nth 0 argv "")]) \/
  (~ help_requested argv /\ cerr = [] /\ configuration_error argv).
Proof.
  destruct (main_unfold BUILD_DATE BUILD_USER POSIXLY_CORRECT argv)
    as [[Hh ->]|[Hh ->]].
  - intros [= <- <-]. left. auto.
  - destruct (dispatchAll (scan argv) initial) as [v|st|] eqn:E;
      try discriminate.
    apply dispatchAll_status in E as [-> Herr].
    intros [= <- <-]. right. auto.
Qed.

(** X17.  Nothing behind a double dash is an option: with [--] as its first
    argument, [main] does what it does without arguments, whatever
    follows. *)
Theorem main_double_dash (prog : string) (post : list string) :
  main (prog :: "--" :: post) = main [prog].
Proof.
  apply main_same_scan.
  - apply not_help_other. discriminate.
  - intros [Hlen _]. discriminate.
  - reflexivity.
  - unfold MasterMain.scan, start. cbn [tl].
    etransitivity;
      [exact (run_ending POSIXLY_CORRECT (DoubleDash post) eq_refl)
      |symmetry; exact (run_ending POSIXLY_CORRECT NothingMore eq_refl)].
Qed.



End Main.

Lemma main_exit_status_classified_witness :
  forallb (well_written false) configured_items = true /\
  (exists s,
     MasterMain.main "20101020" "builder" false
       ("nexus-master" :: flat_map render configured_items ++
        render_ending NothingMore) = Some (Waiting s) /\
     exit_status (Waiting s) true = Some 0) /\
  (exists o,
     MasterMain.main "20101020" "builder" false
       ("nexus-master" :: flat_map render configured_items ++
        render_rejected (LongLacksArgument port_option)) = Some o /\
     exit_status o true = Some 1).
Proof.
  assert (Hw : forallb (well_written false) configured_items = true)
    by reflexivity.
  destruct (main_exit_status_classified "20101020" "builder" false
              "nexus-master" configured_items Hw) as (Hok & Hbad & _).
  split; [exact Hw|]. split.
  - destruct (Hok NothingMore eq_refl) as (s & Hm & H0 & _).
    exists s. split; [exact Hm | exact H0].
  - destruct (Hbad (LongLacksArgument port_option) eq_refl) as (o & Hm & H1).
    exists o. split; [exact Hm | exact (H1 true)].
Defined.

Lemma main_allocator_of_command_line_witness :
  forallb (well_written false) configured_items = true /\
  exists s,
    MasterMain.main "20101020" "builder" false
      ("nexus-master" :: flat_map render configured_items ++
       render_ending NothingMore) = Some (Waiting s) /\
    master_allocator s = "fair".
Proof.
  assert (Hw : forallb (well_written false) configured_items = true)
    by reflexivity.
  split; [exact Hw|].
  exact (main_allocator_of_command_line "20101020" "builder" false
           "nexus-master" configured_items NothingMore Hw eq_refl).
Defined.

Lemma main_port_of_command_line_witness :
  forallb (well_written false) configured_items = true /\
  exists s,
    MasterMain.main "20101020" "builder" false
      ("nexus-master" :: flat_map render configured_items ++
       render_ending NothingMore) = Some (Waiting s) /\
    port_variable s = Some "5051".
Proof.
  assert (Hw : forallb (well_written false) configured_items = true)
    by reflexivity.
  split; [exact Hw|].
  destruct (main_port_of_command_line "20101020" "builder" false
              "nexus-master" configured_items NothingMore Hw eq_refl)
    as (s & Hm & Hp & _).
  exists s. split; [exact Hm | exact Hp].
Defined.

Lemma main_usage_witness :
  MasterMain.main "20101020" "builder" false help_alone =
    Some (Exited 1 [usage "nexus-master"]) /\
  ((help_requested help_alone /\
    [usage "nexus-master"] = [usage (nth 0 help_alone "")]) \/
   (~ help_requested help_alone /\ [usage "nexus-master"] = [] /\
    MasterMain.configuration_error false help_alone)).
Proof.
  assert (Hm : MasterMain.main "20101020" "builder" false help_alone =
               Some (Exited 1 [usage "nexus-master"]))
    by (vm_compute; reflexivity).
  split; [exact Hm|].
  exact (main_usage "20101020" "builder" false help_alone 1 _ Hm).
Defined.


End MasterMainMore.

(** ** tests/environment.cpp *)

Module StringFacts.

Lemma append_cons (c : ascii) (s1 s2 : string) :
  String.append (String c s1) s2 = String c (String.append s1 s2).
Proof. reflexivity. Qed.

Lemma append_nil_r (s : string) : String.append s "" = s.
Proof.
  induction s as [|c s IH]; [reflexivity|]. now rewrite append_cons, IH.
Qed.

Lemma append_assoc (s1 s2 s3 : string) :
  String.append (String.append s1 s2) s3 =
  String.append s1 (String.append s2 s3).
Proof.
  induction s1 as [|c s1 IH]; [reflexivity|]. now rewrite !append_cons, IH.
Qed.

Lemma length_append (s1 s2 : string) :
  String.length (String.append s1 s2) =
  (String.length s1 + String.length s2)%nat.
Proof.
  induction s1 as [|c s1 IH]; [reflexivity|].
  rewrite append_cons. simpl. now rewrite IH.
Qed.

Lemma substring_all (s : string) : String.substring 0 (String.length s) s = s.
Proof. induction s as [|c s IH]; simpl; [reflexivity | now rewrite IH]. Qed.

Lemma substring_front (s1 s2 : string) :
  String.substring 0 (String.length s1) (String.append s1 s2) = s1.
Proof.
  induction s1 as [|c s1 IH].
  - destruct s2; reflexivity.
  - rewrite append_cons. simpl. now rewrite IH.
Qed.

Lemma substring_back (s1 s2 : string) :
  String.substring (String.length s1) (String.length s2)
                   (String.append s1 s2) = s2.
Proof.
  induction s1 as [|c s1 IH].
  - apply substring_all.
  - rewrite append_cons. simpl. exact IH.
Qed.

End StringFacts.

Module TestEnvironmentFacts.
Import Slave TestEnvironment StringFacts.

Lemma find_none_append (c : ascii) (s1 s2 : string) :
  find c s1 = None ->
  find c (String.append s1 (String c s2)) = Some (String.length s1).
Proof.
  induction s1 as [|d s1 IH]; simpl.
  - intros _. rewrite Ascii.eqb_refl. reflexivity.
  - rewrite ?append_cons. simpl. destruct (Ascii.eqb d c); [discriminate|].
    destruct (find c s1); [discriminate|]. intros _. now rewrite IH.
Qed.

Lemma find_some_split (c : ascii) (s : string) :
  forall n, find c s = Some n ->
    exists pre post,
      s = String.append pre (String c post) /\
      String.length pre = n /\ find c pre = None.
Proof.
  induction s as [|d s IH]; simpl; intros n; [discriminate|].
  destruct (Ascii.eqb_spec d c) as [->|N].
  - intros [= <-]. exists EmptyString, s. auto.
  - destruct (find c s) as [k|] eqn:E; [|discriminate].
    intros [= <-]. destruct (IH k eq_refl) as (pre & post & -> & <- & Hpre).
    exists (String d pre), post. rewrite ?append_cons. simpl.
    rewrite Hpre. destruct (Ascii.eqb_spec d c); [contradiction|]. auto.
Qed.

Lemma substr_from_back (s1 : string) (c : ascii) (s2 : string) :
  substr_from (String.length s1 + 1) (String.append s1 (String c s2)) = s2.
Proof.
  unfold substr_from. rewrite length_append. simpl.
  replace (String.length s1 + S (String.length s2) - (String.length s1 + 1))%nat
    with (String.length s2) by lia.
  replace (String.append s1 (String c s2))
    with (String.append (String.append s1 (String c "")) s2)
    by (now rewrite append_assoc).
  replace (String.length s1 + 1)%nat
    with (String.length (String.append s1 (String c "")))
    by (rewrite length_append; reflexivity).
  apply substring_back.
Qed.

(** The split cuts at the first dash: no dash is left in front. *)
Lemma splitFilter_spec (f : string) :
  (find "-" f = None /\ splitFilter f = (f, EmptyString)) \/
  (exists pre post,
      f = String.append pre (String "-" post) /\
      find "-" pre = None /\ splitFilter f = (pre, post)).
Proof.
  unfold splitFilter. destruct (find "-" f) as [n|] eqn:E; [right | left; auto].
  destruct (find_some_split _ _ _ E) as (pre & post & -> & <- & Hpre).
  exists pre, post. split; [reflexivity|]. split; [exact Hpre|].
  now rewrite substring_front, substr_from_back.
Qed.

Lemma splitFilter_join (enabled disabled : string) :
  find "-" enabled = None ->
  splitFilter (String.append (String.append enabled "-") disabled) =
  (enabled, disabled).
Proof.
  intros Hno. rewrite append_assoc.
  change (String.append "-" disabled) with (String "-"%char disabled).
  unfold splitFilter. rewrite (find_none_append _ _ _ Hno).
  now rewrite substring_front, substr_from_back.
Qed.

Lemma orUniversal_no_dash (enabled : string) :
  find "-" enabled = None -> find "-" (orUniversal enabled) = None.
Proof.
  unfold orUniversal. destruct (String.eqb enabled ""); [reflexivity | auto].
Qed.

Lemma orUniversal_idem (enabled : string) :
  orUniversal (orUniversal enabled) = orUniversal enabled.
Proof.
  unfold orUniversal. destruct (String.eqb_spec enabled "") as [->|N];
    [reflexivity|].
  destruct (String.eqb_spec enabled ""); [contradiction | reflexivity].
Qed.

Lemma endsWith_append (s suffix : string) :
  endsWith (String.append s suffix) suffix = true.
Proof.
  unfold endsWith. rewrite length_append.
  replace (String.length s + String.length suffix - String.length suffix)%nat
    with (String.length s) by lia.
  rewrite substring_back. apply String.eqb_refl.
Qed.

Lemma closeList_fixed (disabled : string) :
  disabled = "" \/ endsWith disabled ":" = true ->
  closeList disabled = disabled.
Proof.
  unfold closeList. intros [->|E]; [reflexivity|].
  rewrite E. now rewrite andb_false_r.
Qed.

Lemma closeList_closed (disabled : string) :
  closeList disabled = "" \/ endsWith (closeList disabled) ":" = true.
Proof.
  unfold closeList.
  destruct (String.eqb_spec disabled "") as [->|N]; simpl; [auto|].
  destruct (endsWith disabled ":") eqn:E; simpl; [auto|].
  right. apply endsWith_append.
Qed.

Lemma closeList_idem (disabled : string) :
  closeList (closeList disabled) = closeList disabled.
Proof. apply closeList_fixed, closeList_closed. Qed.

Ltac enable_cases h test :=
  destruct h as [u pc lx hs]; destruct test as [cn n tp];
  unfold enable, checkNames, allowed, marked, typed, is_root,
    nothing_mounted;
  cbn [user proc_cgroups linux hierarchies test_case_name name type_param];
  destruct tp as [ty|];
  repeat match goal with
         | |- context [contains ?a ?b] => destruct (contains a b)
         end;
  destruct (String.eqb u "root"), pc, lx, hs as [[|x hs]|];
  cbn [andb orb negb is_empty fst snd].

(** X20.  [enable] decides what the comment above it says: a test is
    enabled exactly when each marker in its names is met by the machine
    (ROOT_ by the user root, CGROUPS_ by /proc/cgroups, NOHIERARCHY_ on
    Linux by no mounted hierarchy), wherever in the two names the markers
    stand, and a CgroupsIsolator type parameter by both root and
    /proc/cgroups.  It gives this answer whenever the hierarchies could be
    read, or are not asked for. *)
Theorem enable_allowed (h : Host) (test : TestInfo) :
  (forall b out, enable h test = Ok (b, out) -> b = allowed h test) /\
  (is_Some (hierarchies h) \/ linux h = false \/
   marked "NOHIERARCHY_" test = false ->
   exists out, enable h test = Ok (allowed h test, out)).
Proof.
  enable_cases h test;
    (split;
     [ intros b out Heq; try discriminate Heq;
       injection Heq as <- <-; reflexivity
     | intros Hor;
       first [ eexists; reflexivity
             | exfalso; destruct Hor as [[y Hy]|[Hy|Hy]]; discriminate ] ]).
Qed.

(** X21.  [enable] ends the process only through its CHECK, that is on
    Linux, for a test marked NOHIERARCHY_, when the hierarchies cannot be
    read.  It writes to [cerr] only when it disables a test because
    hierarchies are mounted, and then one banner with those hierarchies. *)
Theorem enable_effects (h : Host) (test : TestInfo) :
  (forall d, enable h test = Aborted d ->
     linux h = true /\ hierarchies h = None /\
     marked "NOHIERARCHY_" test = true /\
     d = ["Check failed: hierarchies.isSome() "]) /\
  (forall b out, enable h test = Ok (b, out) ->
     out = [] \/
     (b = false /\ linux h = true /\ marked "NOHIERARCHY_" test = true /\
      exists hs, out = [hs] /\ hierarchies h = Some hs /\ hs <> [])).
Proof.
  enable_cases h test;
    (split;
     [ intros d Heq; try discriminate Heq;
       injection Heq as <-; repeat split; reflexivity
     | intros b out Heq; try discriminate Heq;
       injection Heq as <- <-;
       first [ left; reflexivity
             | right; repeat split; eexists;
               (split; [reflexivity|]); (split; [reflexivity|]);
               discriminate ] ]).
Qed.

Lemma append_entry (disabled : string) (test : TestInfo) :
  String.append
    (String.append
       (String.append (String.append disabled (test_case_name test)) ".")
       (name test))
    ":" =
  String.append disabled (entry test).
Proof. unfold entry. now rewrite !append_assoc. Qed.

Lemma disableTests_entries (h : Host) (tests : list TestInfo) :
  forall disabled disabled' out,
    disableTests h tests disabled = Ok (disabled', out) ->
    disabled' = String.append disabled (entries h tests).
Proof.
  induction tests as [|test tests IH]; intros d d' out; simpl.
  - intros [= <- <-]. now rewrite append_nil_r.
  - destruct (enable h test) as [[b o]|] eqn:E; [|discriminate].
    apply (proj1 (enable_allowed h test)) in E. subst b.
    destruct (disableTests h tests _) as [[f o']|] eqn:E'; [|discriminate].
    intros [= <- <-]. apply IH in E'. subst f.
    destruct (allowed h test); simpl; [reflexivity|].
    now rewrite append_entry, append_assoc.
Qed.

(** Whether the loop gets through, and what it prints, does not depend on
    the list it started with. *)
Lemma disableTests_any_start (h : Host) (tests : list TestInfo) :
  forall d1 d2,
    match disableTests h tests d1, disableTests h tests d2 with
    | Ok (_, out1), Ok (_, out2) => out1 = out2
    | Aborted e1, Aborted e2 => e1 = e2
    | _, _ => False
    end.
Proof.
  induction tests as [|test tests IH]; intros d1 d2; simpl; [reflexivity|].
  destruct (enable h test) as [[b o]|]; [|reflexivity].
  match goal with
  | |- context [disableTests h tests ?a] =>
    match goal with
    | |- context [match disableTests h tests ?b with _ => _ end] =>
      first [constr_eq a b; fail 1 | specialize (IH a b)]
    end
  end.
  destruct (disableTests h tests _) as [[f1 o1]|];
    destruct (disableTests h tests _) as [[f2 o2]|];
    try contradiction; congruence.
Qed.

Lemma entries_allowed (h : Host) (tests : list TestInfo) :
  (forall test, test ∈ tests -> allowed h test = true) ->
  entries h tests = EmptyString.
Proof.
  induction tests as [|test tests IH]; intros Hall; simpl; [reflexivity|].
  rewrite (Hall test) by left. apply IH. intros t Ht. apply Hall. now right.
Qed.

Lemma entries_closed (h : Host) (tests : list TestInfo) :
  entries h tests = EmptyString \/
  exists front, entries h tests = String.append front ":".
Proof.
  induction tests as [|test tests IH]; simpl; [auto|].
  destruct (allowed h test); [exact IH|]. right.
  destruct IH as [->|[front ->]].
  - rewrite append_nil_r. unfold entry.
    exists (String.append (test_case_name test)
                          (String.append "." (name test))).
    now rewrite !append_assoc.
  - exists (String.append (entry test) front). now rewrite append_assoc.
Qed.

(** X22.  The filter the constructor writes keeps what was there: in front
    of the dash the enabled tests of the old filter (the universal pattern
    if there were none), behind it the disabled tests of the old filter,
    closed by a colon, and then one entry "TestCase.TestName:" for each
    registered test that the machine does not allow, in the order of
    registration.  Cutting the new filter at its first dash gives these
    two parts back.  The two listeners are added behind those present. *)
Theorem Environment_filter (h : Host) (testCases : list (list TestInfo))
    (g g' : Gtest) (out : list (list string)) :
  Environment h testCases g = Ok (g', out) ->
  let enabled := orUniversal (fst (splitFilter (filter g))) in
  let disabled :=
    String.append (closeList (snd (splitFilter (filter g))))
                  (entries h (List.concat testCases)) in
  filter g' = String.append (String.append enabled "-") disabled /\
  splitFilter (filter g') = (enabled, disabled) /\
  listeners g' =
    listeners g ++ ["process::FilterTestEventListener";
                    "process::ClockTestEventListener"].
Proof.
  unfold Environment.
  assert (Hno : find "-" (fst (splitFilter (filter g))) = None).
  { destruct (splitFilter_spec (filter g))
      as [[Hn ->]|(pre & post & _ & Hn & ->)]; exact Hn. }
  destruct (splitFilter (filter g)) as [en dis]. simpl in *.
  destruct (disableTests h _ _) as [[d' o]|] eqn:E; [|discriminate].
  intros [= <- <-]. simpl. apply disableTests_entries in E. subst d'.
  split; [reflexivity|]. split; [|reflexivity].
  apply splitFilter_join. now apply orUniversal_no_dash.
Qed.

(** X23.  The constructor gets through whenever the file is not compiled
    for Linux or the hierarchies can be read; if it ends the process, it
    is on Linux, the hierarchies cannot be read, and some registered test
    is marked NOHIERARCHY_. *)
Theorem Environment_abort (h : Host) (testCases : list (list TestInfo))
    (g : Gtest) :
  (is_Some (hierarchies h) \/ linux h = false ->
   exists g' out, Environment h testCases g = Ok (g', out)) /\
  (forall d, Environment h testCases g = Aborted d ->
     linux h = true /\ hierarchies h = None /\
     exists test, test ∈ List.concat testCases /\
                  marked "NOHIERARCHY_" test = true).
Proof.
  assert (Htotal : forall tests d,
             is_Some (hierarchies h) \/ linux h = false ->
             exists d' out, disableTests h tests d = Ok (d', out)).
  { intros tests. induction tests as [|test tests IH]; intros d Hor; simpl.
    - eauto.
    - destruct (proj2 (enable_allowed h test)) as [o ->]; [tauto|].
      destruct (IH (if negb (allowed h test)
                    then String.append
                           (String.append
                              (String.append
                                 (String.append d (test_case_name test)) ".")
                              (name test)) ":"
                    else d) Hor) as (d' & o' & ->).
      eauto. }
  assert (Habort : forall tests d e,
             disableTests h tests d = Aborted e ->
             linux h = true /\ hierarchies h = None /\
             exists test, test ∈ tests /\ marked "NOHIERARCHY_" test = true).
  { intros tests. induction tests as [|test tests IH]; intros d e; simpl.
    - discriminate.
    - destruct (enable h test) as [[b o]|e'] eqn:E.
      + destruct (disableTests h tests _) as [[f o']|e'] eqn:E';
          [discriminate|].
        intros _. destruct (IH _ _ E') as (Hl & Hh & t & Ht & Hm).
        repeat split; try assumption. exists t. split; [now right | exact Hm].
      + intros _.
        destruct (proj1 (enable_effects h test) _ E) as (Hl & Hh & Hm & _).
        repeat split; try assumption. exists test. split; [left | exact Hm]. }
  unfold Environment. destruct (splitFilter (filter g)) as [en dis]. split.
  - intros Hor.
    destruct (Htotal (List.concat testCases) (closeList dis) Hor)
      as (d' & o & ->).
    eauto.
  - intros d.
    destruct (disableTests h _ _) as [[d' o]|e] eqn:E; [discriminate|].
    intros _. exact (Habort _ _ _ E).
Qed.

(** X24.  Constructing the environment a second time, on the same machine
    with the same tests registered, gets through as the first time did,
    prints the same, and leaves the filter of the first time with the
    entries of the disallowed tests appended once more; if every test is
    allowed the filter does not change again. *)
Theorem Environment_twice (h : Host) (testCases : list (list TestInfo))
    (g g1 : Gtest) (out : list (list string)) :
  Environment h testCases g = Ok (g1, out) ->
  exists g2,
    Environment h testCases g1 = Ok (g2, out) /\
    filter g2 =
      String.append (filter g1) (entries h (List.concat testCases)) /\
    ((forall test, test ∈ List.concat testCases -> allowed h test = true) ->
     filter g2 = filter g1).
Proof.
  intros Hfirst.
  destruct (Environment_filter _ _ _ _ _ Hfirst) as (Hf & Hsplit & _).
  cbv zeta in Hf, Hsplit.
  set (en := orUniversal (fst (splitFilter (filter g)))) in *.
  set (dis := closeList (snd (splitFilter (filter g)))) in *.
  set (new := entries h (List.concat testCases)) in *.
  assert (Hclosed : closeList (String.append dis new) = String.append dis new).
  { apply closeList_fixed. subst new.
    destruct (entries_closed h (List.concat testCases)) as [->|[front ->]].
    - rewrite append_nil_r. apply closeList_closed.
    - right. rewrite <- append_assoc. apply endsWith_append. }
  assert (Hrun : exists d2, disableTests h (List.concat testCases)
                              (String.append dis new) = Ok (d2, out)).
  { revert Hfirst. unfold Environment.
    destruct (splitFilter (filter g)) as [e0 d0].
    pose proof (disableTests_any_start h (List.concat testCases)
                  (closeList d0) (String.append dis new)) as Hany.
    destruct (disableTests h (List.concat testCases) (closeList d0))
      as [[d1 o1]|]; [|discriminate].
    intros [= _ <-].
    destruct (disableTests h (List.concat testCases) (String.append dis new))
      as [[d2 o2]|]; [|contradiction].
    subst o2. eauto. }
  destruct Hrun as [d2 Hrun].
  pose proof (disableTests_entries _ _ _ _ _ Hrun) as Hd2. fold new in Hd2.
  unfold Environment. rewrite Hsplit.
  unfold en at 1. rewrite orUniversal_idem. fold en.
  rewrite Hclosed, Hrun.
  eexists. split; [reflexivity|]. simpl. rewrite Hd2, Hf.
  split.
  - now rewrite !append_assoc.
  - intros Hall. subst new. rewrite (entries_allowed _ _ Hall).
    now rewrite !append_nil_r.
Qed.

Lemma enable_allowed_witness :
  is_Some (hierarchies user_host) /\
  exists out, enable user_host mount_test = Ok (false, out).
Proof.
  assert (Hs : is_Some (hierarchies user_host)) by (eexists; reflexivity).
  split; [exact Hs|].
  exact (proj2 (enable_allowed user_host mount_test) (or_introl Hs)).
Defined.

Lemma enable_effects_witness :
  enable broken_host mount_test =
    Aborted ["Check failed: hierarchies.isSome() "] /\
  linux broken_host = true /\ hierarchies broken_host = None.
Proof.
  assert (He : enable broken_host mount_test =
               Aborted ["Check failed: hierarchies.isSome() "])
    by reflexivity.
  split; [exact He|].
  pose proof (proj1 (enable_effects broken_host mount_test) _ He)
    as (Hl & Hh & _).
  split; [exact Hl | exact Hh].
Defined.

Lemma sample_environment :
  Environment user_host registry gtest0 =
  Ok (mkGtest
        "Master*-Slow*:IsolatorTest.ROOT_Usage:AllocatorTest/0.Balance:CgroupsNoHierarchyTest.ROOT_CGROUPS_NOHIERARCHY_Mount:"
        ["process::FilterTestEventListener";
         "process::ClockTestEventListener"],
      []).
Proof. vm_compute. reflexivity. Defined.

Lemma Environment_filter_witness :
  exists g',
    Environment user_host registry gtest0 = Ok (g', []) /\
    splitFilter (filter g') =
    ("Master*",
     "Slow*:IsolatorTest.ROOT_Usage:AllocatorTest/0.Balance:CgroupsNoHierarchyTest.ROOT_CGROUPS_NOHIERARCHY_Mount:").
Proof.
  eexists. split; [exact sample_environment|].
  exact (proj1 (proj2 (Environment_filter _ _ _ _ _ sample_environment))).
Defined.

Lemma Environment_abort_witness :
  is_Some (hierarchies root_host) /\
  exists g' out, Environment root_host registry gtest0 = Ok (g', out).
Proof.
  assert (Hs : is_Some (hierarchies root_host)) by (eexists; reflexivity).
  split; [exact Hs|].
  exact (proj1 (Environment_abort root_host registry gtest0) (or_introl Hs)).
Defined.

Lemma Environment_twice_witness :
  exists g1 g2,
    Environment user_host registry gtest0 = Ok (g1, []) /\
    Environment user_host registry g1 = Ok (g2, []) /\
    filter g2 =
      String.append (filter g1) (entries user_host (List.concat registry)).
Proof.
  destruct (Environment_twice _ _ _ _ _ sample_environment)
    as (g2 & Hrun & Hf & _).
  eexists _, g2. split; [exact sample_environment|].
  split; [exact Hrun | exact Hf].
Defined.

End TestEnvironmentFacts.
